(** * autostart: a shallow embedding of the XDG autostart launcher

    The development follows the C sources:
    - [src/util.c]      : [trim], [remove_desktop_specifiers]
    - [src/config.c]    : [config_init], [config_load], [config_find_app],
                          [config_dir_allowed]
    - [src/autostart.c] : [parse_desktop_file], [check_tryexec],
                          [run_command], [scan_autostart_dir],
                          [launch_queued_apps], [main]

    A C string is the list of its characters up to, and without, the
    terminating NUL.  Where the C code works in place on a buffer and a
    property depends on it ([remove_desktop_specifiers]) the buffer itself is
    modelled, as a list of characters read and written by index.

    A file is the list of its bytes.  The two parsers read it through
    [fgets], buffer by buffer; a buffer is a line of the file as long as the
    lines fit it, and the properties of files are stated on their lines
    under that condition. *)

From Stdlib Require Import ZArith Lia Ascii String.
From stdpp Require Import base list.

Local Open Scope char_scope.
Local Open Scope list_scope.

(** ** The pieces of the C library the program uses *)

Module Libc.

Definition cstr := list ascii.

(** A string literal. *)
Definition str (s : string) : cstr := list_ascii_of_string s.

Definition NUL : ascii := "000".

Definition is_nul (c : ascii) : bool := Ascii.eqb c NUL.

(** [isspace] in the "C" locale (the program never calls [setlocale]):
    space, and the control characters \t \n \v \f \r. *)
Definition isspace (c : ascii) : bool :=
  let n := nat_of_ascii c in
  Nat.eqb n 32 || (Nat.leb 9 n && Nat.leb n 13).

(** The string a [char *] denotes: the characters before the first NUL. *)
Fixpoint cstring (mem : list ascii) : cstr :=
  match mem with
  | [] => []
  | c :: mem' => if is_nul c then [] else c :: cstring mem'
  end.

(** [*p] for a pointer [p] at offset [i] into [mem]. *)
Definition peek (mem : list ascii) (i : nat) : ascii :=
  default NUL (mem !! i).

(** [!strcmp(a, b)] *)
Fixpoint streq (a b : cstr) : bool :=
  match a, b with
  | [], [] => true
  | x :: a', y :: b' => Ascii.eqb x y && streq a' b'
  | _, _ => false
  end.

(** [!strncmp(s, p, strlen(p))] : [p] is a prefix of [s]. *)
Fixpoint has_prefix (p s : cstr) : bool :=
  match p, s with
  | [], _ => true
  | x :: p', y :: s' => Ascii.eqb x y && has_prefix p' s'
  | _ :: _, [] => false
  end.

(** [strstr(s, p) != NULL] *)
Fixpoint strstr (s p : cstr) : bool :=
  has_prefix p s ||
  match s with
  | [] => false
  | _ :: s' => strstr s' p
  end.

(** [strchr(s, c)] for [c] other than NUL: [None] for a null pointer,
    otherwise the text before the first [c] and the text after it. *)
Fixpoint strchr (s : cstr) (c : ascii) : option (cstr * cstr) :=
  match s with
  | [] => None
  | x :: s' =>
      if Ascii.eqb x c then Some ([], s')
      else match strchr s' c with
           | Some (pre, post) => Some (x :: pre, post)
           | None => None
           end
  end.

(** [strrchr(s, c)] for [c] other than NUL: the suffix of [s] that starts
    at the last [c]. *)
Fixpoint strrchr (s : cstr) (c : ascii) : option cstr :=
  match s with
  | [] => None
  | x :: s' =>
      match strrchr s' c with
      | Some r => Some r
      | None => if Ascii.eqb x c then Some s else None
      end
  end.

(** [strncpy(dst, src, n)] into a field whose bytes from index [n] on are
    zero: the field then holds the first [n] characters of [src]
    ([strncpy] pads the rest of the [n] bytes with NUL). *)
Definition strncpy (n : nat) (src : cstr) : cstr := take n src.

(** The longest prefix of [s] made of characters that satisfy [ok]
    (a scanset of [sscanf]), and what follows it. *)
Fixpoint span (ok : ascii -> bool) (s : cstr) : cstr * cstr :=
  match s with
  | [] => ([], [])
  | c :: s' =>
      if ok c then let (a, b) := span ok s' in (c :: a, b)
      else ([], s)
  end.

(** A conversion [%N[...]] of [sscanf]: at most [width] characters of the
    scanset, at least one, or the conversion fails. *)
Definition scanset (width : nat) (ok : ascii -> bool) (s : cstr)
  : option (cstr * cstr) :=
  let (a, _) := span ok s in
  match take width a with
  | [] => None
  | tok => Some (tok, drop (length tok) s)
  end.

Definition is_digit (c : ascii) : bool :=
  let n := nat_of_ascii c in Nat.leb 48 n && Nat.leb n 57.

Definition digit_val (c : ascii) : Z := (Z.of_nat (nat_of_ascii c) - 48)%Z.

(** The digits at the head of [s], read in base ten after [acc]. *)
Fixpoint digits (acc : Z) (s : cstr) : Z :=
  match s with
  | [] => acc
  | c :: s' => if is_digit c then digits (acc * 10 + digit_val c)%Z s' else acc
  end.

Fixpoint skip_space (s : cstr) : cstr :=
  match s with
  | c :: s' => if isspace c then skip_space s' else s
  | [] => []
  end.

Definition LONG_MAX : Z := (2 ^ 63 - 1)%Z.
Definition LONG_MIN : Z := (- 2 ^ 63)%Z.

(** [strtol(s, NULL, 10)]: white space, an optional sign, digits; the
    value saturates at the bounds of [long]. *)
Definition strtol (s : cstr) : Z :=
  let v :=
    match skip_space s with
    | "-" :: s' => (- digits 0 s')%Z
    | "+" :: s' => digits 0 s'
    | s' => digits 0 s'
    end in
  Z.max LONG_MIN (Z.min LONG_MAX v).

(** The conversion of a [long] to [int]: the low 32 bits, signed. *)
Definition to_int (z : Z) : Z := ((z + 2 ^ 31) mod 2 ^ 32 - 2 ^ 31)%Z.

(** [atoi(s)], which the C library defines as [(int) strtol(s, NULL, 10)]. *)
Definition atoi (s : cstr) : Z := to_int (strtol s).

(** The pieces of [s] between the occurrences of [d]. *)
Fixpoint fields (d : ascii) (s : cstr) : list cstr :=
  match s with
  | [] => [[]]
  | c :: s' =>
      if Ascii.eqb c d then [] :: fields d s'
      else match fields d s' with
           | f :: fs => (c :: f) :: fs
           | [] => [[c]]
           end
  end.

(** The tokens that [strtok(s, d)] followed by [strtok(NULL, d)] until it
    returns a null pointer hand out, for a single delimiter [d]: runs of
    delimiters separate tokens and no token is empty. *)
Definition strtok (s : cstr) (d : ascii) : list cstr :=
  List.filter (fun f => negb (Nat.eqb (length f) 0)) (fields d s).

Definition newline : ascii := "010".

(** The successive buffers that [fgets(line, width + 1, f)] fills until it
    returns a null pointer at the end of the file: each holds at most
    [width] characters and ends after a newline if one comes first.
    [room] is what is left of the buffer being filled. *)
Fixpoint read_lines (width room : nat) (data : list ascii)
  : list (list ascii) :=
  match data with
  | [] => []
  | c :: data' =>
      if Ascii.eqb c newline || Nat.leb room 1
      then [c] :: read_lines width width data'
      else match read_lines width (room - 1) data' with
           | l :: ls => (c :: l) :: ls
           | [] => [[c]]
           end
  end.

(** The lines a [while (fgets(line, size, f))] loop sees, as C strings
    (a NUL byte in the file cuts the line short for the string functions). *)
Definition fgets_lines (size : nat) (data : list ascii) : list cstr :=
  map cstring (read_lines (size - 1) (size - 1) data).

End Libc.

(** ** util.c *)

Module Util.
Import Libc.

(** The text left of [s] once its trailing white space is cut. *)
Fixpoint rstrip (s : cstr) : cstr :=
  match s with
  | [] => []
  | c :: s' =>
      match rstrip s' with
      | [] => if isspace c then [] else [c]
      | r => c :: r
      end
  end.

(** [trim]: skips the leading white space, then moves [end] back from the
    last character while [end > str] and [*end] is white space, and writes
    the terminator after [end].  The first character always stays. *)
Definition trim (s : cstr) : cstr :=
  match skip_space s with
  | [] => []
  | c :: r => c :: rstrip r
  end.

Definition percent : ascii := "%".

(** [remove_desktop_specifiers], in place on the buffer [mem] that holds
    the command at offset 0.  [src] and [dst] are the two pointers, as
    offsets.  Each turn of the [while] loop moves [src] forward, so the
    length of the buffer bounds the number of turns; [fuel] counts them. *)
Fixpoint rds_loop (fuel : nat) (mem : list ascii) (src dst : nat)
  : option (list ascii) :=
  match fuel with
  | O => None
  | S fuel' =>
      if is_nul (peek mem src) then Some (<[dst := NUL]> mem)
      else if Ascii.eqb (peek mem src) percent then
        let src1 := S src in
        let src2 := if is_nul (peek mem src1) then src1 else S src1 in
        rds_loop fuel' mem src2 dst
      else rds_loop fuel' (<[dst := peek mem src]> mem) (S src) (S dst)
  end.

Definition remove_desktop_specifiers (mem : list ascii)
  : option (list ascii) :=
  rds_loop (S (length mem)) mem 0 0.

(** The command sanitizer in the words of the specification: scan left to
    right; a [%] consumes itself and the character after it, if there is
    one; every other character is copied. *)
Fixpoint sanitize (s : cstr) : cstr :=
  match s with
  | [] => []
  | c :: rest =>
      if Ascii.eqb c percent then
        match rest with
        | [] => []
        | _ :: rest' => sanitize rest'
        end
      else c :: sanitize rest
  end.

End Util.

(** ** config.h, config.c *)

Module Config.
Import Libc Util.

Definition MAX_CFG_APPS : Z := 128.
Definition MAX_CFG_DIRS : Z := 32.
Definition PATH_MAX : nat := 4096.
Definition MAX_LINE : nat := 1024.

Record AppRule := mkAppRule {
  app_name : cstr;        (* char name[256] *)
  app_allow : Z;          (* int allow *)
  app_delay_ms : Z        (* int delay_ms, -1 when there is none *)
}.

Record DirRule := mkDirRule {
  dir_path : cstr;        (* char path[PATH_MAX] *)
  dir_allow : Z           (* int allow *)
}.

Record Config := mkConfig {
  startup_delay_ms : Z;
  delay_ms : Z;
  log_level : Z;
  log_file : cstr;
  apps : list AppRule;    (* struct AppRule apps[MAX_CFG_APPS] *)
  app_count : Z;
  dirs : list DirRule;    (* struct DirRule dirs[MAX_CFG_DIRS] *)
  dir_count : Z
}.

Definition zero_app : AppRule := mkAppRule [] 0 0.
Definition zero_dir : DirRule := mkDirRule [] 0.

(** [config_init]: [memset] to zero, then [delay_ms = 200]. *)
Definition config_init : Config :=
  {| startup_delay_ms := 0;
     delay_ms := 200;
     log_level := 0;
     log_file := [];
     apps := replicate (Z.to_nat MAX_CFG_APPS) zero_app;
     app_count := 0;
     dirs := replicate (Z.to_nat MAX_CFG_DIRS) zero_dir;
     dir_count := 0 |}.

Definition set_startup_delay_ms (cfg : Config) (v : Z) : Config :=
  mkConfig v (delay_ms cfg) (log_level cfg) (log_file cfg)
           (apps cfg) (app_count cfg) (dirs cfg) (dir_count cfg).

Definition set_delay_ms (cfg : Config) (v : Z) : Config :=
  mkConfig (startup_delay_ms cfg) v (log_level cfg) (log_file cfg)
           (apps cfg) (app_count cfg) (dirs cfg) (dir_count cfg).

(** [cfg->apps[cfg->app_count++] = r] *)
Definition push_app (cfg : Config) (r : AppRule) : Config :=
  mkConfig (startup_delay_ms cfg) (delay_ms cfg) (log_level cfg)
           (log_file cfg)
           (<[Z.to_nat (app_count cfg) := r]> (apps cfg))
           (app_count cfg + 1)
           (dirs cfg) (dir_count cfg).

(** [cfg->dirs[cfg->dir_count++] = r] *)
Definition push_dir (cfg : Config) (r : DirRule) : Config :=
  mkConfig (startup_delay_ms cfg) (delay_ms cfg) (log_level cfg)
           (log_file cfg) (apps cfg) (app_count cfg)
           (<[Z.to_nat (dir_count cfg) := r]> (dirs cfg))
           (dir_count cfg + 1).

(** One turn of the [strtok] loop of the [apps] branch. *)
Definition apply_token (r : AppRule) (token : cstr) : AppRule :=
  let t := trim token in
  if has_prefix (str "allow:") t then
    mkAppRule (app_name r) (atoi (drop 6 t)) (app_delay_ms r)
  else if has_prefix (str "delay:") t then
    mkAppRule (app_name r) (app_allow r) (atoi (drop 6 t))
  else r.

(** The rule the [apps] branch stores for the key [k] and the value [v]:
    the defaults [allow = 1], [delay_ms = -1], then the sub-tokens of [v]
    from left to right. *)
Definition app_rule_of (k v : cstr) : AppRule :=
  fold_left apply_token (strtok v ",")
            (mkAppRule (strncpy 255 k) 1 (-1)).

(** The rule the [dirs] branch stores: [allow = !strcmp(v, "block")]. *)
Definition dir_rule_of (k v : cstr) : DirRule :=
  mkDirRule (strncpy (PATH_MAX - 1) k)
            (if streq v (str "block") then 1 else 0).

(** [sscanf(s, "[%63[^]]", section)]: the new content of [section]. *)
Definition scan_section (s section : cstr) : cstr :=
  match s with
  | "[" :: s' =>
      match scanset 63 (fun c => negb (Ascii.eqb c "]")) s' with
      | Some (name, _) => name
      | None => section
      end
  | _ => section
  end.

(** [sscanf(s, "%255[^=]=%255[^\n]", key, val)]: [Some (key, val)] when it
    returns 2. *)
Definition scan_key_val (s : cstr) : option (cstr * cstr) :=
  match scanset 255 (fun c => negb (Ascii.eqb c "=")) s with
  | Some (key, "=" :: rest) =>
      match scanset 255 (fun c => negb (Ascii.eqb c newline)) rest with
      | Some (val, _) => Some (key, val)
      | None => None
      end
  | _ => None
  end.

(** What the loop of [config_load] carries from line to line. *)
Record LoadState := mkLoadState {
  ls_cfg : Config;
  ls_section : cstr       (* char section[64] *)
}.

(** The body of the [while (fgets(...))] loop, for one line. *)
Definition config_line (st : LoadState) (line : cstr) : LoadState :=
  let cfg := ls_cfg st in
  let section := ls_section st in
  let s := trim line in
  match s with
  | [] => st
  | c :: _ =>
      if Ascii.eqb c "#" then st
      else if Ascii.eqb c "[" then mkLoadState cfg (scan_section s section)
      else
        match scan_key_val s with
        | None => st
        | Some (key, val) =>
            let k := trim key in
            let v := trim val in
            if streq section (str "general") then
              if streq k (str "startup_delay") then
                mkLoadState (set_startup_delay_ms cfg (atoi v)) section
              else if streq k (str "delay") then
                mkLoadState (set_delay_ms cfg (atoi v)) section
              else st
            else if streq section (str "apps")
                    && (app_count cfg <? MAX_CFG_APPS)%Z then
              mkLoadState (push_app cfg (app_rule_of k v)) section
            else if streq section (str "dirs")
                    && (dir_count cfg <? MAX_CFG_DIRS)%Z then
              mkLoadState (push_dir cfg (dir_rule_of k v)) section
            else st
        end
  end.

Definition load_lines (cfg : Config) (lines : list cstr) : LoadState :=
  fold_left config_line lines (mkLoadState cfg []).

(** [config_load(cfg, path)]: [file] is what [fopen(path, "r")] gives,
    [None] when the file cannot be opened.  The result is the
    configuration afterwards and the value returned. *)
Definition config_load (cfg : Config) (file : option (list ascii))
  : Config * Z :=
  match file with
  | None => (cfg, -1)%Z
  | Some data => (ls_cfg (load_lines cfg (fgets_lines MAX_LINE data)), 0%Z)
  end.

(** [config_find_app]: the index of the rule a non-null result points to. *)
Fixpoint find_app_from (cfg : Config) (name : cstr) (i : nat) (n : nat)
  : option AppRule :=
  match n with
  | O => None
  | S n' =>
      match apps cfg !! i with
      | Some r =>
          if streq (app_name r) name then Some r
          else find_app_from cfg name (S i) n'
      | None => None
      end
  end.

Definition config_find_app (cfg : Config) (name : cstr) : option AppRule :=
  find_app_from cfg name 0 (Z.to_nat (app_count cfg)).

(** [config_dir_allowed] *)
Fixpoint dir_allowed_from (cfg : Config) (path : cstr) (i : nat) (n : nat)
  : Z :=
  match n with
  | O => 0
  | S n' =>
      match dirs cfg !! i with
      | Some r =>
          if streq (dir_path r) path then dir_allow r
          else dir_allowed_from cfg path (S i) n'
      | None => 0
      end
  end.

Definition config_dir_allowed (cfg : Config) (path : cstr) : Z :=
  dir_allowed_from cfg path 0 (Z.to_nat (dir_count cfg)).

End Config.

(** ** autostart.c *)

Module Autostart.
Import Libc Util Config.

Definition MAX_LINE : nat := 1024.
Definition MAX_PATH : nat := 2048.
Definition DELAY_MS : Z := 200.
Definition INT_MAX : Z := 2 ^ 31 - 1.

Record DesktopEntry := mkEntry {
  name : cstr;            (* char name[256] *)
  exec : cstr;            (* char exec[1024] *)
  tryexec : cstr;         (* char tryexec[256] *)
  icon : cstr;            (* char icon[256] *)
  path : cstr;            (* char path[1024] *)
  terminal : Z;
  hidden : Z;
  nodisplay : Z;
  valid : Z
}.

(** [memset(entry, 0, sizeof(struct DesktopEntry))] *)
Definition zero_entry : DesktopEntry := mkEntry [] [] [] [] [] 0 0 0 0.

Definition set_name (e : DesktopEntry) (v : cstr) : DesktopEntry :=
  mkEntry v (exec e) (tryexec e) (icon e) (path e)
          (terminal e) (hidden e) (nodisplay e) (valid e).
Definition set_exec (e : DesktopEntry) (v : cstr) : DesktopEntry :=
  mkEntry (name e) v (tryexec e) (icon e) (path e)
          (terminal e) (hidden e) (nodisplay e) (valid e).
Definition set_tryexec (e : DesktopEntry) (v : cstr) : DesktopEntry :=
  mkEntry (name e) (exec e) v (icon e) (path e)
          (terminal e) (hidden e) (nodisplay e) (valid e).
Definition set_icon (e : DesktopEntry) (v : cstr) : DesktopEntry :=
  mkEntry (name e) (exec e) (tryexec e) v (path e)
          (terminal e) (hidden e) (nodisplay e) (valid e).
Definition set_path (e : DesktopEntry) (v : cstr) : DesktopEntry :=
  mkEntry (name e) (exec e) (tryexec e) (icon e) v
          (terminal e) (hidden e) (nodisplay e) (valid e).
Definition set_terminal (e : DesktopEntry) (v : Z) : DesktopEntry :=
  mkEntry (name e) (exec e) (tryexec e) (icon e) (path e)
          v (hidden e) (nodisplay e) (valid e).
Definition set_hidden (e : DesktopEntry) (v : Z) : DesktopEntry :=
  mkEntry (name e) (exec e) (tryexec e) (icon e) (path e)
          (terminal e) v (nodisplay e) (valid e).
Definition set_nodisplay (e : DesktopEntry) (v : Z) : DesktopEntry :=
  mkEntry (name e) (exec e) (tryexec e) (icon e) (path e)
          (terminal e) (hidden e) v (valid e).
Definition set_valid (e : DesktopEntry) (v : Z) : DesktopEntry :=
  mkEntry (name e) (exec e) (tryexec e) (icon e) (path e)
          (terminal e) (hidden e) (nodisplay e) v.

(** What the program asks of the operating system.  [fork n] is what the
    [n]-th call of [fork] returns in the launcher: the child's pid, or
    nothing when the call fails. *)
Record Env := mkEnv {
  fopen : cstr -> option (list ascii);
  opendir : cstr -> option (list cstr);
  system : cstr -> Z;
  fork : nat -> option positive
}.

(** What the program lets the outside see, in the order it happens. *)
Inductive Event :=
| ErrOpen (filename : cstr)
| WarnNoDir (dir : cstr)
| Scanning (n : Z) (dir : cstr)
| SkippedHidden (nm : cstr)
| SkippedPolicy (nm : cstr)
| SkippedTryExec (nm : cstr)
| Queued (nm : cstr)
| ScanSummary (dir : cstr) (total_found queued : Z)
| NoApps
| LaunchHeader (count delay : Z)
| Nanosleep (tv_sec tv_nsec : Z)
| Spawn (cmd work_dir : cstr)
| Launching (n total : Z) (ok : bool) (nm : cstr)
| LaunchSummary (total successful failed : Z).

Record World := mkWorld {
  out : list Event;
  forks : nat               (* calls of [fork] so far *)
}.

Definition emit (w : World) (e : Event) : World :=
  mkWorld (out w ++ [e]) (forks w).

(** The loop of [parse_desktop_file] carries the entry and two flags. *)
Record ParseState := mkParseState {
  ps_entry : DesktopEntry;
  in_desktop_entry : bool;
  type_is_application : bool
}.

Definition bool_to_int (b : bool) : Z := if b then 1 else 0.

(** The body of the [while (fgets(...))] loop for one line: the state for
    the next line, or the entry as it stands at the [return 0] in the
    [Type] branch. *)
Definition desktop_line (st : ParseState) (line : cstr)
  : ParseState + DesktopEntry :=
  let e := ps_entry st in
  let trimmed := trim line in
  match trimmed with
  | [] => inl st
  | c :: _ =>
      if Ascii.eqb c "#" then inl st
      else if Ascii.eqb c "[" then
        inl (mkParseState e (strstr trimmed (str "[Desktop Entry]"))
                          (type_is_application st))
      else if negb (in_desktop_entry st) then inl st
      else
        match strchr trimmed "=" with
        | None => inl st
        | Some (pre, post) =>
            let key := trim pre in
            let value := trim post in
            let upd e' := inl (mkParseState e' (in_desktop_entry st)
                                            (type_is_application st)) in
            if streq key (str "Type") then
              if negb (streq value (str "Application")) then inr e
              else inl (mkParseState e (in_desktop_entry st) true)
            else if streq key (str "Name") then
              upd (set_name e (strncpy 255 value))
            else if streq key (str "Exec") then
              upd (set_exec e (strncpy 1023 value))
            else if streq key (str "TryExec") then
              upd (set_tryexec e (strncpy 255 value))
            else if streq key (str "Path") then
              upd (set_path e (strncpy 1023 value))
            else if streq key (str "Icon") then
              upd (set_icon e (strncpy 255 value))
            else if streq key (str "Terminal") then
              upd (set_terminal e (bool_to_int (streq value (str "true"))))
            else if streq key (str "Hidden") then
              upd (set_hidden e (bool_to_int (streq value (str "true"))))
            else if streq key (str "NoDisplay") then
              upd (set_nodisplay e (bool_to_int (streq value (str "true"))))
            else inl st
        end
  end.

Fixpoint parse_loop (st : ParseState) (lines : list cstr)
  : ParseState + DesktopEntry :=
  match lines with
  | [] => inl st
  | line :: rest =>
      match desktop_line st line with
      | inl st' => parse_loop st' rest
      | inr e => inr e
      end
  end.

(** The end of [parse_desktop_file], after the loop: the required fields
    are checked and [entry->valid] is returned. *)
Definition validate (st : ParseState) : DesktopEntry * Z :=
  let e := ps_entry st in
  let e' :=
    if type_is_application st
       && (0 <? length (name e))%nat && (0 <? length (exec e))%nat
    then set_valid e 1 else e in
  (e', valid e').

(** [parse_lines]: the function from the [memset] on, on the lines of the
    file. *)
Definition parse_lines (lines : list cstr) : DesktopEntry * Z :=
  match parse_loop (mkParseState zero_entry false false) lines with
  | inr e => (e, 0%Z)
  | inl st => validate st
  end.

(** [parse_desktop_file(filename, entry)]: the entry afterwards, the value
    returned, and the world. *)
Definition parse_desktop_file (env : Env) (filename : cstr)
           (entry : DesktopEntry) (w : World) : DesktopEntry * Z * World :=
  match fopen env filename with
  | None => (entry, 0%Z, emit w (ErrOpen filename))
  | Some data =>
      let (e, r) := parse_lines (fgets_lines MAX_LINE data) in (e, r, w)
  end.

(** [check_tryexec] *)
Definition check_tryexec (env : Env) (tryexec : cstr) : Z :=
  if Nat.eqb (length tryexec) 0 then 1%Z
  else
    let command :=
      take (MAX_PATH - 1)
           (str "command -v " ++ tryexec ++ str " > /dev/null 2>&1") in
    bool_to_int (system env command =? 0)%Z.

(** [run_command(exec_cmd, work_dir)]: the value returned and the world
    afterwards; [None] only if the loop of [remove_desktop_specifiers]
    did not end within its fuel.  The child, when [fork] gives one, starts
    a session, changes to [work_dir] if it is not empty and runs the
    command with [sh -c]: the event [Spawn]. *)
Definition run_command (env : Env) (exec_cmd work_dir : cstr) (w : World)
  : option (Z * World) :=
  if Nat.eqb (length exec_cmd) 0 then Some (0%Z, w)
  else
    let copied := strncpy (MAX_PATH - 1) exec_cmd in
    let cmd := copied ++ replicate (MAX_PATH - length copied) NUL in
    cmd' ← remove_desktop_specifiers cmd;
    let w1 := mkWorld (out w) (S (forks w)) in
    match fork env (forks w) with
    | Some pid => Some (1%Z, emit w1 (Spawn (cstring cmd') work_dir))
    | None => Some (0%Z, w1)
    end.

(** The launch queue: the [count] slots in use, in order, and the
    capacity of the allocation. *)
Record AppQueue := mkQueue {
  q_apps : list DesktopEntry;
  capacity : nat
}.

Definition count (a : AppQueue) : nat := length (q_apps a).

(** [app_queue_init] *)
Definition app_queue_init : AppQueue := mkQueue [] 5.

(** [app_queue_add]: doubles the capacity when the queue is full, then
    stores the entry in the next slot. *)
Definition app_queue_add (a : AppQueue) (entry : DesktopEntry) : AppQueue :=
  let cap := if Nat.eqb (count a) (capacity a)
             then (capacity a * 2)%nat else capacity a in
  mkQueue (q_apps a ++ [entry]) cap.

(** The loop of [scan_autostart_dir] over [cfg.apps]: the [allow] field of
    the first rule with this name, 1 when there is none. *)
Fixpoint allowed_from (cfg : Config) (nm : cstr) (i n : nat) : Z :=
  match n with
  | O => 1%Z
  | S n' =>
      match apps cfg !! i with
      | Some r =>
          if streq (app_name r) nm then app_allow r
          else allowed_from cfg nm (S i) n'
      | None => 1%Z
      end
  end.

Definition allowed (cfg : Config) (nm : cstr) : Z :=
  allowed_from cfg nm 0 (Z.to_nat (app_count cfg)).

(** What the scan carries from one directory entry to the next. *)
Record ScanState := mkScan {
  sc_queue : AppQueue;
  sc_world : World;
  total_found : Z;
  queued : Z
}.

(** The body of the [readdir] loop for the entry called [d_name]. *)
Definition scan_entry (env : Env) (cfg : Config) (autostart_dir : cstr)
           (st : ScanState) (d_name : cstr) : ScanState :=
  match strrchr d_name "." with
  | None => st
  | Some ext =>
      if negb (streq ext (str ".desktop")) then st
      else
        let found := to_int (total_found st + 1) in
        let full_path :=
          take (MAX_PATH - 1) (autostart_dir ++ str "/" ++ d_name) in
        let '(de, r, w) :=
          parse_desktop_file env full_path zero_entry (sc_world st) in
        let skip w' := mkScan (sc_queue st) w' found (queued st) in
        if (r =? 0)%Z || (valid de =? 0)%Z then skip w
        else if negb (hidden de =? 0)%Z || negb (nodisplay de =? 0)%Z then
          skip (emit w (SkippedHidden (name de)))
        else if (allowed cfg (name de) =? 0)%Z then
          skip (emit w (SkippedPolicy (name de)))
        else if (check_tryexec env (tryexec de) =? 0)%Z then
          skip (emit w (SkippedTryExec (name de)))
        else
          mkScan (app_queue_add (sc_queue st) de)
                 (emit w (Queued (name de))) found (queued st)
  end.

(** [scan_autostart_dir]: the value returned, the queue and the world. *)
Definition scan_autostart_dir (env : Env) (cfg : Config)
           (autostart_dir : cstr) (dir_index : Z)
           (q : AppQueue) (w : World) : Z * AppQueue * World :=
  match opendir env autostart_dir with
  | None => (0%Z, q, emit w (WarnNoDir autostart_dir))
  | Some names =>
      let w0 := emit w (Scanning (dir_index + 1) autostart_dir) in
      let st := fold_left (scan_entry env cfg autostart_dir) names
                          (mkScan q w0 0 0) in
      (queued st, sc_queue st,
       emit (sc_world st)
            (ScanSummary autostart_dir (total_found st) (queued st)))
  end.

(** The conversion of a [size_t] to [long] for [%ld]. *)
Definition to_long (z : Z) : Z := ((z + 2 ^ 63) mod 2 ^ 64 - 2 ^ 63)%Z.

(** The delay before the launch at index [i]:
    [i ? cfg.delay_ms : cfg.startup_delay_ms]. *)
Definition launch_delay (cfg : Config) (i : Z) : Z :=
  if (i =? 0)%Z then startup_delay_ms cfg else delay_ms cfg.

(** The [for] loop of [launch_queued_apps] from index [i] on, [rest] being
    [apps[i..count)]: the final [success_count] and the world. *)
Fixpoint launch_loop (env : Env) (cfg : Config) (total : Z) (i : Z)
         (rest : list DesktopEntry) (success_count : Z) (w : World)
  : option (Z * World) :=
  match rest with
  | [] => Some (success_count, w)
  | e :: rest' =>
      let delay := launch_delay cfg i in
      let w1 := emit w (Nanosleep (Z.quot delay 1000)
                                  (Z.rem delay 1000 * 1000000)) in
      '(r, w2) ← run_command env (exec e) (path e) w1;
      let ok := negb (r =? 0)%Z in
      let success_count' :=
        if ok then to_int (success_count + 1) else success_count in
      let w3 := emit w2 (Launching (i + 1) total ok (name e)) in
      launch_loop env cfg total (i + 1) rest' success_count' w3
  end.

(** [launch_queued_apps] *)
Definition launch_queued_apps (env : Env) (cfg : Config) (q : AppQueue)
           (w : World) : option World :=
  let total := Z.of_nat (count q) in
  if (total =? 0)%Z then Some (emit w NoApps)
  else
    let w0 := emit w (LaunchHeader total DELAY_MS) in
    '(success_count, w1) ← launch_loop env cfg total 0 (q_apps q) 0 w0;
    Some (emit w1 (LaunchSummary total success_count
                                 (to_long (total - success_count)))).








(** The loop of [main] over the directories, from index [i]. *)
Fixpoint scan_dirs (env : Env) (cfg : Config) (dirs : list cstr) (i : Z)
         (q : AppQueue) (w : World) : AppQueue * World :=
  match dirs with
  | [] => (q, w)
  | dir :: dirs' =>
      let '(_, q', w') := scan_autostart_dir env cfg dir i q w in
      scan_dirs env cfg dirs' (i + 1) q' w'
  end.
















End Autostart.

(** * The vocabulary of the properties

    Notions the statements below are written in: what a file, a line or a
    trace looks like, and the inputs of the examples. *)

Module Props.
Import Libc Util Config Autostart.

(** No NUL occurs in the string a pointer denotes. *)
Definition nul_free (s : cstr) : Prop := Forall (fun c => is_nul c = false) s.

(** The file made of the given lines, each ended by a newline. *)
Definition text (lines : list string) : list ascii :=
  concat (map (fun l => str l ++ [newline]) lines).

(** The counters stay between zero and the ceilings, and the arrays keep
    their size: every store goes to a slot of the array. *)
Definition within_caps (cfg : Config) : Prop :=
  (0 <= app_count cfg <= MAX_CFG_APPS)%Z
  /\ (0 <= dir_count cfg <= MAX_CFG_DIRS)%Z
  /\ length (apps cfg) = Z.to_nat MAX_CFG_APPS
  /\ length (dirs cfg) = Z.to_nat MAX_CFG_DIRS.

(** A policy with as many application rules as fit: [MAX_CFG_APPS] rules
    named [a], [aa], [aaa], ... *)
Definition crowded_policy : list cstr :=
  str "[apps]"
  :: map (fun i => repeat "a" i ++ str "=allow:1") (seq 1 128).

(** A policy with as many directory rules as fit. *)
Definition crowded_dirs : list cstr :=
  str "[dirs]"
  :: map (fun i => "/" :: repeat "d" i ++ str "=block") (seq 1 32).

(** A sub-token that the [apps] branch reads as [allow:]. *)
Definition is_allow_token (token : cstr) : bool :=
  has_prefix (str "allow:") (trim token).

(** What one directory entry can do to the queue: nothing, or append one
    entry that parsed as valid, is neither hidden nor undisplayed, is not
    denied by the rules and passes the [TryExec] probe. *)
Definition admitted (env : Env) (cfg : Config) (e : DesktopEntry) : Prop :=
  valid e <> 0%Z /\ hidden e = 0%Z /\ nodisplay e = 0%Z
  /\ allowed cfg (name e) <> 0%Z
  /\ check_tryexec env (tryexec e) <> 0%Z.

(** The policy of the specification's example. *)
Definition firefox_denied : Config :=
  fst (config_load config_init
         (Some (text ["[apps]"; "firefox=allow:0"]%string))).

(** The lines [[n/total] Access|Deny launching: name] among the events. *)
Fixpoint launch_reports (evs : list Event) : list (Z * Z * bool * cstr) :=
  match evs with
  | [] => []
  | Launching n total ok nm :: evs' => (n, total, ok, nm) :: launch_reports evs'
  | _ :: evs' => launch_reports evs'
  end.

(** How the launches of [rest] turn out when [nf] calls of [fork] came
    before: an empty command fails without a [fork]; otherwise the launch
    succeeds exactly when [fork] does. *)
Fixpoint outcomes (env : Env) (nf : nat) (rest : list DesktopEntry)
  : list bool :=
  match rest with
  | [] => []
  | e :: rest' =>
      if Nat.eqb (length (exec e)) 0 then false :: outcomes env nf rest'
      else match fork env nf with Some _ => true | None => false end
           :: outcomes env (S nf) rest'
  end.

(** The reports of the entries [rest], numbered from [i + 1]. *)
Fixpoint reports (total i : Z) (rest : list DesktopEntry) (oks : list bool)
  : list (Z * Z * bool * cstr) :=
  match rest, oks with
  | e :: rest', ok :: oks' =>
      ((i + 1)%Z, total, ok, name e) :: reports total (i + 1) rest' oks'
  | _, _ => []
  end.

(** How many of the launches succeeded, and how many failed. *)
Fixpoint successes (oks : list bool) : Z :=
  match oks with
  | [] => 0
  | ok :: oks' => ((if ok then 1 else 0) + successes oks')%Z
  end.

Fixpoint failures (oks : list bool) : Z :=
  match oks with
  | [] => 0
  | ok :: oks' => ((if ok then 0 else 1) + failures oks')%Z
  end.

(** An operating system in which the second call of [fork] fails. *)
Definition second_fork_fails : Env :=
  mkEnv (fun _ => None) (fun _ => None) (fun _ => 0%Z)
        (fun n => if Nat.eqb n 1 then None else Some 7%positive).

(** A valid entry with this name and this command. *)
Definition entry_of (nm cmd : string) : DesktopEntry :=
  mkEntry (str nm) (str cmd) [] [] [] 0 0 0 1.

(** Four entries: the second has no command, the fork for the third fails. *)
Definition four_entries : AppQueue :=
  mkQueue [entry_of "a" "a %f"; entry_of "b" ""; entry_of "c" "c";
           entry_of "d" "d"] 5.

(** The policy of the specification's second example. *)
Definition firefox_delayed : Config :=
  fst (config_load config_init
         (Some (text ["[apps]"; "firefox=allow:1,delay:500"]%string))).

(** An operating system in which every [fork] succeeds. *)
Definition forks_succeed : Env :=
  mkEnv (fun _ => None) (fun _ => None) (fun _ => 0%Z)
        (fun _ => Some 7%positive).

(** The key and the value of a line: the line is trimmed and split at its
    first [=], and both sides are trimmed. *)
Definition key_value (line : cstr) : option (cstr * cstr) :=
  match strchr (trim line) "=" with
  | Some (pre, post) => Some (trim pre, trim post)
  | None => None
  end.

(** The line gives the key [Type] the value [Application]. *)
Definition is_type_application (line : cstr) : bool :=
  match key_value line with
  | Some (k, v) => streq k (str "Type") && streq v (str "Application")
  | None => false
  end.

(** Whether key=value lines are read after [line], when they were
    ([b = true]) or were not read before it: a line that starts with [[]
    decides anew, by [strstr]. *)
Definition section_after (b : bool) (line : cstr) : bool :=
  match trim line with
  | c :: _ =>
      if Ascii.eqb c "[" then strstr (trim line) (str "[Desktop Entry]")
      else b
  | [] => b
  end.

(** Whether key=value lines are read after the lines [lines] of a file. *)
Definition section_open (lines : list cstr) : bool :=
  fold_left section_after lines false.

(** A Type=Application line read inside the section occurs in [lines],
    key=value lines being read ([b = true]) or not at their start. *)
Definition type_application_seen_from (b : bool) (lines : list cstr) : Prop :=
  exists pre line post,
    lines = pre ++ line :: post
    /\ fold_left section_after pre b = true
    /\ is_type_application line = true.

Definition type_application_seen (lines : list cstr) : Prop :=
  type_application_seen_from false lines.

(** The state in which the loop of [parse_desktop_file] starts. *)
Definition fresh : ParseState := mkParseState zero_entry false false.

(** An operating system with one file, whatever its name. *)
Definition one_file (lines : list string) : Env :=
  mkEnv (fun _ => Some (text lines)) (fun _ => None) (fun _ => 0%Z)
        (fun _ => Some 7%positive).

(** The files of the examples. *)
Definition link_file : list string :=
  ["[Desktop Entry]"; "Name=Site"; "Exec=xdg-open http://example.org";
   "Type=Link"; "Icon=web"]%string.

Definition editor_file : list string :=
  ["# an editor"; "[Desktop Entry]"; "Type = Application"; "Name=Editor";
   "Exec=editor %F"]%string.

Definition action_file : list string :=
  ["[Desktop Action New]"; "Type=Application"; "Name=Editor";
   "Exec=editor --new"]%string.

Definition stray_file : list string :=
  ["[X-Not a [Desktop Entry] at all]"; "Type=Application"; "Name=Stray";
   "Exec=stray --run"]%string.

Definition trailing_file : list string :=
  ["[Desktop Entry] and more"; "Type=Application"; "Name=Stray";
   "Exec=stray --run"]%string.

(** A sub-token that the [apps] branch reads as [delay:]. *)
Definition is_delay_token (token : cstr) : bool :=
  has_prefix (str "delay:") (trim token).

(** A line both parsers skip: empty once trimmed, or starting with [#]. *)
Definition is_comment (line : cstr) : bool :=
  match trim line with
  | [] => true
  | c :: _ => Ascii.eqb c "#"
  end.

(** A line that starts, once trimmed, with [[]. *)
Definition is_section_line (line : cstr) : bool :=
  match trim line with
  | c :: _ => Ascii.eqb c "["
  | [] => false
  end.

(** The names and paths of all slots fit the buffers by far. *)
Definition names_fit (cfg : Config) : Prop :=
  Forall (fun r => length (app_name r) <= 255) (apps cfg)
  /\ Forall (fun r => length (dir_path r) <= 255) (dirs cfg).

(** A section line after which the section is [general]. *)
Definition opens_general (line : cstr) : bool :=
  is_section_line line
  && streq (scan_section (trim line) []) (str "general").

(** A flag of the entry: 0 or 1. *)
Definition is_flag (z : Z) : Prop := z = 0%Z \/ z = 1%Z.

(** Every string of the entry fits its buffer with its terminator, and
    every flag is 0 or 1. *)
Definition entry_fits (e : DesktopEntry) : Prop :=
  length (name e) <= 255 /\ length (exec e) <= 1023
  /\ length (tryexec e) <= 255 /\ length (icon e) <= 255
  /\ length (path e) <= 1023
  /\ is_flag (terminal e) /\ is_flag (hidden e) /\ is_flag (nodisplay e).

(** The entry [e] is what the parser made, returning 1, of a file of the
    directory [dir] whose name is in [names] and ends in [.desktop]. *)
Definition comes_from (env : Env) (dir : cstr) (names : list cstr)
           (e : DesktopEntry) : Prop :=
  exists d_name base data,
    In d_name names
    /\ d_name = base ++ str ".desktop"
    /\ fopen env (take (Autostart.MAX_PATH - 1) (dir ++ str "/" ++ d_name))
       = Some data
    /\ parse_lines (fgets_lines Autostart.MAX_LINE data) = (e, 1%Z).

(** What [nanosleep] is called with for a delay in milliseconds. *)
Definition timespec_of (delay : Z) : Z * Z :=
  (Z.quot delay 1000, (Z.rem delay 1000 * 1000000)%Z).

(** The calls of [nanosleep] among the events. *)
Fixpoint sleeps (evs : list Event) : list (Z * Z) :=
  match evs with
  | [] => []
  | Nanosleep sec nsec :: evs' => (sec, nsec) :: sleeps evs'
  | _ :: evs' => sleeps evs'
  end.

(** The number of entries whose command is not empty. *)
Fixpoint commands (entries : list DesktopEntry) : nat :=
  match entries with
  | [] => 0
  | e :: entries' =>
      (if Nat.eqb (length (exec e)) 0 then 0 else 1) + commands entries'
  end.

(** The entries [added] are what a scan of [dir] can append: entries made
    of its [.desktop] files that pass every gate, or nothing when the
    directory cannot be opened. *)
Definition scanned_from (env : Env) (cfg : Config) (dir : cstr)
           (added : list DesktopEntry) : Prop :=
  match opendir env dir with
  | Some names =>
      Forall (fun e => admitted env cfg e /\ comes_from env dir names e)
             added
  | None => added = []
  end.

(** A run of white space. *)
Definition all_space (ws : cstr) : Prop :=
  Forall (fun c => isspace c = true) ws.

(** The first, or the last, character of [s], if there is one, is not white
    space. *)
Definition starts_solid (s : cstr) : Prop :=
  match s with
  | c :: _ => isspace c = false
  | [] => True
  end.

Definition ends_solid (s : cstr) : Prop :=
  match last s with
  | Some c => isspace c = false
  | None => True
  end.

(** The file made of the given lines, each ended by a newline. *)
Definition file_of (lines : list cstr) : list ascii :=
  concat (map (fun l => l ++ [newline]) lines).

(** A line whose characters fit, with the terminator, a buffer of [size]
    bytes: one call of [fgets] reads them all, and its newline with them
    or, when they fill the buffer, alone in the next call. *)
Definition fits (size : nat) (line : list ascii) : bool :=
  Nat.leb (length line + 1) size.

(** Every line of the file fits.  The lines of a file are the pieces
    between its newlines; the last one is what follows the last newline,
    empty when the file ends with a newline. *)
Definition lines_fit (size : nat) (data : list ascii) : bool :=
  forallb (fits size) (fields newline data).

(** The lines of a file as C strings: a NUL byte cuts a line short. *)
Definition file_lines (data : list ascii) : list cstr :=
  map cstring (fields newline data).

(** The lines as both parsers take them: trimmed, the empty ones left
    out. *)
Definition solid (lines : list cstr) : list cstr :=
  List.filter (fun l => negb (Nat.eqb (length l) 0)) (map trim lines).

(** The line gives the key [Type] a value other than [Application]. *)
Definition is_other_type (line : cstr) : bool :=
  match key_value line with
  | Some (k, v) => streq k (str "Type") && negb (streq v (str "Application"))
  | None => false
  end.

(** One of [lines] gives [Type] another value and is read inside the
    section, key=value lines being read ([b = true]) or not at their
    start. *)
Fixpoint type_rejected_from (b : bool) (lines : list cstr) : bool :=
  match lines with
  | [] => false
  | l :: ls =>
      (b && is_other_type l) || type_rejected_from (section_after b l) ls
  end.

Definition type_rejected (lines : list cstr) : bool :=
  type_rejected_from false lines.

(** The value a line gives the key [k] when it is read inside the section
    ([b = true]). *)
Definition line_value (k : cstr) (b : bool) (line : cstr) : option cstr :=
  match key_value line with
  | Some (k', v) => if b && streq k' k then Some v else None
  | None => None
  end.

(** The value that the last of [lines] to give the key [k] a value gives
    it, key=value lines being read ([b = true]) or not at their start. *)
Fixpoint last_value (k : cstr) (b : bool) (lines : list cstr)
  : option cstr :=
  match lines with
  | [] => None
  | l :: ls =>
      match last_value k (section_after b l) ls with
      | Some v => Some v
      | None => line_value k b l
      end
  end.

(** What a field of [n + 1] bytes holds of such a value: its first [n]
    characters, and nothing when no line gave one. *)
Definition field_of (n : nat) (v : option cstr) : cstr :=
  match v with
  | Some v => take n v
  | None => []
  end.




(** A section line that contains the text [[Desktop Entry]]. *)
Definition names_desktop_entry (line : cstr) : bool :=
  is_section_line line && strstr (trim line) (str "[Desktop Entry]").

(** The [allow] the rules give a name: that of the first rule with this
    name, 1 when there is none. *)
Definition allow_of (cfg : Config) (nm : cstr) : Z :=
  match config_find_app cfg nm with
  | Some r => app_allow r
  | None => 1%Z
  end.

(** An operating system with one file, whatever its name, of the given
    content. *)
Definition one_text (data : list ascii) : Env :=
  mkEnv (fun _ => Some data) (fun _ => None) (fun _ => 0%Z)
        (fun _ => Some 7%positive).

(** An entry file whose last line is [Type=Link] behind 1021 blanks. *)
Definition padded_link_file : list cstr :=
  [str "[Desktop Entry]"; str "Type=Application"; str "Name=Site";
   str "Exec=xdg-open http://example.org";
   repeat " " 1021 ++ str "Type=Link"].

(** An entry file without a section line: the text [[Desktop Entry]] only
    ends a comment of 1038 characters. *)
Definition commented_section_file : list cstr :=
  [("#" :: repeat "x" 1022) ++ str "[Desktop Entry]";
   str "Type=Application"; str "Name=Stray"; str "Exec=stray --run"].

(** A value of 264 characters whose last sub-token is [allow:0]. *)
Definition long_value : cstr :=
  str "delay:100," ++ repeat "x" 246 ++ str ",allow:0".

Definition long_value_policy : list cstr :=
  [str "[apps]"; str "firefox=" ++ long_value].

(** The entry file of an application named [firefox]. *)
Definition firefox_file : list string :=
  ["[Desktop Entry]"; "Type=Application"; "Name=firefox";
   "Exec=firefox %u"]%string.

(** A policy whose rule for [firefox] has the number 2. *)
Definition firefox_two : Config :=
  fst (config_load config_init
         (Some (text ["[apps]"; "firefox=allow:2"]%string))).

End Props.

(** * Properties *)

(** Case analysis on the condition of an [if] in the goal. *)
Ltac case_if :=
  match goal with
  | |- context [if ?b then _ else _] => destruct b eqn:?
  end.

(** ** Characters and C strings *)

Section LibcFacts.
Import Libc Props.

Lemma ascii_eqb_true (a b : ascii) : Ascii.eqb a b = true <-> a = b.
Proof. apply Ascii.eqb_eq. Qed.

Lemma ascii_eqb_false (a b : ascii) : Ascii.eqb a b = false <-> a <> b.
Proof. apply Ascii.eqb_neq. Qed.

Lemma streq_true (a b : cstr) : streq a b = true <-> a = b.
Proof.
  revert b; induction a as [|x a IH]; intros [|y b]; simpl;
    try (split; [discriminate | discriminate]); [tauto|].
  rewrite andb_true_iff, ascii_eqb_true, IH.
  split; [intros [-> ->]; reflexivity | intros [= -> ->]; auto].
Qed.

Lemma streq_refl (a : cstr) : streq a a = true.
Proof. apply streq_true; reflexivity. Qed.

Lemma streq_false (a b : cstr) : streq a b = false <-> a <> b.
Proof.
  destruct (streq a b) eqn:E.
  - apply streq_true in E; split; [discriminate | tauto].
  - split; [|reflexivity]. intros _ H. apply streq_true in H. congruence.
Qed.

Lemma cstring_nul_free (mem : list ascii) : nul_free (cstring mem).
Proof.
  induction mem as [|c mem IH]; simpl; [constructor|].
  destruct (is_nul c) eqn:E; constructor; assumption.
Qed.

Lemma cstring_app_nul (s junk : list ascii) :
  nul_free s -> cstring (s ++ NUL :: junk) = s.
Proof.
  induction 1 as [|c s Hc Hs IH]; simpl; [reflexivity|].
  rewrite Hc, IH; reflexivity.
Qed.

(** Every buffer that holds a NUL is the string it denotes, the NUL, and
    what lies behind it. *)
Lemma cstring_split (s junk : list ascii) :
  exists junk', s ++ NUL :: junk = cstring s ++ NUL :: junk'.
Proof.
  induction s as [|c s [j IH]]; simpl.
  - exists junk; reflexivity.
  - destruct (is_nul c) eqn:E.
    + apply ascii_eqb_true in E; subst c. eexists; reflexivity.
    + exists j. simpl. rewrite IH; reflexivity.
Qed.

Lemma cstring_of_nul_free (s : cstr) : nul_free s -> cstring s = s.
Proof.
  induction 1 as [|c s Hc Hs IH]; simpl; [reflexivity|].
  rewrite Hc, IH; reflexivity.
Qed.

Lemma peek_drop (mem : list ascii) (i : nat) (c : ascii) (l : list ascii) :
  drop i mem = c :: l -> peek mem i = c.
Proof.
  intros H. unfold peek.
  replace (mem !! i) with (drop i mem !! 0).
  - rewrite H; reflexivity.
  - rewrite lookup_drop. f_equal. lia.
Qed.

Lemma drop_succ (mem : list ascii) (i : nat) (c : ascii) (l : list ascii) :
  drop i mem = c :: l -> drop (S i) mem = l.
Proof.
  intros H. replace (S i) with (i + 1) by lia.
  rewrite <- drop_drop, H. reflexivity.
Qed.

Lemma drop_cons_lt (mem : list ascii) (i : nat) (c : ascii) (l : list ascii) :
  drop i mem = c :: l -> i < length mem.
Proof.
  intros H. destruct (decide (i < length mem)) as [|Hge]; [assumption|].
  rewrite drop_ge in H by lia. discriminate.
Qed.

End LibcFacts.

(** ** The command sanitizer *)

Section Sanitizer.
Import Libc Util Props.

Lemma sanitize_nul_free (s : cstr) : nul_free s -> nul_free (sanitize s).
Proof.
  induction s as [s IH] using (induction_ltof1 _ (@length ascii)).
  unfold ltof in IH. intros Hs.
  destruct s as [|c rest]; simpl; [constructor|].
  inversion Hs as [|? ? Hc Hrest]; subst.
  destruct (Ascii.eqb c percent).
  - destruct rest as [|d rest']; [constructor|].
    apply IH; [simpl; lia|]. inversion Hrest; assumption.
  - constructor; [assumption|]. apply IH; [simpl; lia | assumption].
Qed.

(** The loop invariant of [remove_desktop_specifiers]: the first [dst]
    bytes are the output so far, the string still to read starts at [src],
    and the write pointer never passes the read pointer. *)
Lemma rds_loop_spec (fuel : nat) :
  forall (mem : list ascii) (src dst : nat) (rest junk : list ascii),
    nul_free rest ->
    length rest < fuel ->
    drop src mem = rest ++ NUL :: junk ->
    dst <= src ->
    exists tail,
      rds_loop fuel mem src dst
      = Some (take dst mem ++ sanitize rest ++ NUL :: tail).
Proof.
  induction fuel as [|fuel IH]; intros mem src dst rest junk Hnf Hfuel Hdrop Hle;
    [lia|].
  simpl. destruct rest as [|c rest].
  - (* the terminator *)
    simpl in Hdrop. rewrite (peek_drop _ _ _ _ Hdrop). simpl.
    exists (drop (S dst) mem). f_equal.
    apply drop_cons_lt in Hdrop.
    rewrite insert_take_drop by lia. reflexivity.
  - inversion Hnf as [|? ? Hc Hrest]; subst.
    simpl in Hdrop. rewrite (peek_drop _ _ _ _ Hdrop), Hc.
    pose proof (drop_succ _ _ _ _ Hdrop) as Hdrop1.
    simpl sanitize. destruct (Ascii.eqb c percent) eqn:Hp.
    + (* a placeholder *)
      destruct rest as [|d rest].
      * simpl in Hdrop1. rewrite (peek_drop _ _ _ _ Hdrop1). simpl.
        destruct (IH mem (S src) dst [] junk) as [tail Ht];
          [constructor | simpl in *; lia | assumption | lia |].
        exists tail. exact Ht.
      * inversion Hrest as [|? ? Hd Hrest']; subst.
        simpl in Hdrop1. rewrite (peek_drop _ _ _ _ Hdrop1), Hd.
        destruct (IH mem (S (S src)) dst rest junk) as [tail Ht];
          [assumption | simpl in *; lia
          | apply (drop_succ _ _ _ _ Hdrop1) | lia |].
        exists tail. exact Ht.
    + (* an ordinary character *)
      pose proof (drop_cons_lt _ _ _ _ Hdrop) as Hlt.
      destruct (IH (<[dst := c]> mem) (S src) (S dst) rest junk)
        as [tail Ht];
        [assumption | simpl in *; lia | | lia |].
      { rewrite drop_insert_lt by lia. assumption. }
      exists tail. rewrite Ht. f_equal.
      rewrite (take_S_r _ _ c).
      * rewrite take_insert_ge by lia. rewrite <- app_assoc. reflexivity.
      * apply list_lookup_insert_eq. lia.
Qed.

(** On every NUL-terminated buffer [remove_desktop_specifiers] returns,
    and it leaves [sanitize] of the string it found, terminated. *)
Lemma rds_buffer (s junk : list ascii) :
  exists tail,
    remove_desktop_specifiers (s ++ NUL :: junk)
    = Some (sanitize (cstring s) ++ NUL :: tail).
Proof.
  destruct (cstring_split s junk) as [junk' Hsplit].
  unfold remove_desktop_specifiers.
  pose proof (cstring_nul_free s) as Hnf.
  destruct (rds_loop_spec (S (length (s ++ NUL :: junk)))
              (s ++ NUL :: junk) 0 0 (cstring s) junk') as [tail Ht].
  - assumption.
  - rewrite Hsplit, length_app. lia.
  - simpl. assumption.
  - lia.
  - exists tail. exact Ht.
Qed.

Lemma rds_refines (s junk : list ascii) :
  exists mem',
    remove_desktop_specifiers (s ++ NUL :: junk) = Some mem'
    /\ cstring mem' = sanitize (cstring s).
Proof.
  destruct (rds_buffer s junk) as [tail Ht].
  eexists; split; [exact Ht|].
  apply cstring_app_nul, sanitize_nul_free, cstring_nul_free.
Qed.

Lemma sanitize_no_percent (s : cstr) :
  Forall (fun c => c <> percent) (sanitize s).
Proof.
  induction s as [s IH] using (induction_ltof1 _ (@length ascii)).
  unfold ltof in IH.
  destruct s as [|c rest]; simpl; [constructor|].
  destruct (Ascii.eqb c percent) eqn:Hp.
  - destruct rest as [|d rest']; [constructor|].
    apply IH; simpl; lia.
  - constructor; [apply ascii_eqb_false; assumption|].
    apply IH; simpl; lia.
Qed.

Lemma sanitize_fixed (s : cstr) :
  Forall (fun c => c <> percent) s -> sanitize s = s.
Proof.
  induction 1 as [|c s Hc Hs IH]; simpl; [reflexivity|].
  apply ascii_eqb_false in Hc. rewrite Hc, IH. reflexivity.
Qed.

(** C4. [remove_desktop_specifiers] returns on every NUL-terminated
    buffer and turns the string in it into its left-to-right scan in which
    each [%] consumes itself and the one character after it, whatever that
    character is, every other character is copied, and a [%] at the very
    end is dropped; the two commands of the specification come out as
    stated. *)
Theorem sanitize_scans_left_to_right :
  (forall s junk : list ascii,
      exists mem',
        remove_desktop_specifiers (s ++ NUL :: junk) = Some mem'
        /\ cstring mem' = sanitize (cstring s))
  /\ sanitize [] = []
  /\ sanitize [percent] = []
  /\ (forall (c : ascii) (s : cstr),
         sanitize (percent :: c :: s) = sanitize s)
  /\ (forall (c : ascii) (s : cstr),
         c <> percent -> sanitize (c :: s) = c :: sanitize s)
  /\ cstring <$> remove_desktop_specifiers
                   (str "firefox %u --new-window" ++ [NUL])
     = Some (str "firefox  --new-window")
  /\ cstring <$> remove_desktop_specifiers (str "cmd %" ++ [NUL])
     = Some (str "cmd ").
Proof.
  split; [exact rds_refines|].
  repeat split; try reflexivity.
  intros c s Hc. simpl. apply ascii_eqb_false in Hc. rewrite Hc. reflexivity.
Qed.

Lemma sanitize_scans_left_to_right_witness :
  sanitize (str "a%") = "a" :: sanitize (str "%")
  /\ sanitize (str "%%%") = sanitize (str "%").
Proof.
  pose proof sanitize_scans_left_to_right
    as (_ & _ & _ & Hskip & Hcopy & _).
  split.
  - apply (Hcopy "a" (str "%")). discriminate.
  - apply (Hskip "%" (str "%")).
Defined.

(** C10. Whatever NUL-terminated buffer [remove_desktop_specifiers] is
    given, the string it leaves holds no [%], and running it again on the
    buffer it left changes nothing in that string. *)
Theorem sanitize_idempotent (s junk : list ascii) :
  exists mem' mem'',
    remove_desktop_specifiers (s ++ NUL :: junk) = Some mem'
    /\ Forall (fun c => c <> percent) (cstring mem')
    /\ remove_desktop_specifiers mem' = Some mem''
    /\ cstring mem'' = cstring mem'.
Proof.
  destruct (rds_buffer s junk) as [tail Ht].
  pose proof (sanitize_nul_free _ (cstring_nul_free s)) as Hnf.
  destruct (rds_refines (sanitize (cstring s)) tail) as (mem'' & Hrun & Hstr).
  exists (sanitize (cstring s) ++ NUL :: tail), mem''.
  rewrite (cstring_app_nul _ tail Hnf).
  repeat split; [exact Ht | apply sanitize_no_percent | exact Hrun |].
  rewrite Hstr, (cstring_of_nul_free _ Hnf).
  apply sanitize_fixed, sanitize_no_percent.
Qed.

End Sanitizer.

(** ** The policy store *)

Section PolicyStore.
Import Libc Util Config Props.

(** What one line can do to the application rules: nothing, or store one
    rule in the next free slot, which only happens below the ceiling. *)
Lemma config_line_apps (st : LoadState) (line : cstr) :
  let cfg := ls_cfg st in
  let cfg' := ls_cfg (config_line st line) in
  (apps cfg' = apps cfg /\ app_count cfg' = app_count cfg)
  \/ ((app_count cfg < MAX_CFG_APPS)%Z
      /\ (exists r, apps cfg' = <[Z.to_nat (app_count cfg) := r]> (apps cfg))
      /\ app_count cfg' = (app_count cfg + 1)%Z).
Proof.
  unfold config_line. destruct (trim line) as [|c s]; [left; auto|].
  destruct (scan_key_val (c :: s)) as [[key val]|];
    repeat case_if; try (left; split; reflexivity).
  right.
  match goal with
  | H : _ && (_ <? _)%Z = true |- _ =>
      apply andb_true_iff in H as [_ H%Z.ltb_lt]
  end.
  simpl. split; [assumption|]. split; [eexists; reflexivity | reflexivity].
Qed.

Lemma config_line_dirs (st : LoadState) (line : cstr) :
  let cfg := ls_cfg st in
  let cfg' := ls_cfg (config_line st line) in
  (dirs cfg' = dirs cfg /\ dir_count cfg' = dir_count cfg)
  \/ ((dir_count cfg < MAX_CFG_DIRS)%Z
      /\ (exists r, dirs cfg' = <[Z.to_nat (dir_count cfg) := r]> (dirs cfg))
      /\ dir_count cfg' = (dir_count cfg + 1)%Z).
Proof.
  unfold config_line. destruct (trim line) as [|c s]; [left; auto|].
  destruct (scan_key_val (c :: s)) as [[key val]|];
    repeat case_if; try (left; split; reflexivity).
  right.
  match goal with
  | H : _ && (_ <? _)%Z = true |- _ =>
      apply andb_true_iff in H as [_ H%Z.ltb_lt]
  end.
  simpl. split; [assumption|]. split; [eexists; reflexivity | reflexivity].
Qed.

Lemma config_init_within_caps : within_caps config_init.
Proof.
  repeat split; vm_compute; (reflexivity || discriminate).
Qed.

Lemma config_line_within_caps (st : LoadState) (line : cstr) :
  within_caps (ls_cfg st) -> within_caps (ls_cfg (config_line st line)).
Proof.
  intros (Ha & Hd & Hla & Hld).
  destruct (config_line_apps st line) as [[Ea Ec]|(Hlt & [r Ea] & Ec)];
    destruct (config_line_dirs st line) as [[Ed Ek]|(Hlt' & [r' Ed] & Ek)];
    unfold within_caps; rewrite Ea, Ec, Ed, Ek, ?length_insert;
    repeat split; lia.
Qed.

Lemma fold_config_line_within_caps (lines : list cstr) (st : LoadState) :
  within_caps (ls_cfg st) ->
  within_caps (ls_cfg (fold_left config_line lines st)).
Proof.
  revert st; induction lines as [|l lines IH]; intros st H; simpl;
    [assumption|].
  apply IH, config_line_within_caps, H.
Qed.

(** Once the ceiling is reached no line changes the application rules. *)
Lemma fold_config_line_full (lines : list cstr) (st : LoadState) :
  app_count (ls_cfg st) = MAX_CFG_APPS ->
  apps (ls_cfg (fold_left config_line lines st)) = apps (ls_cfg st)
  /\ app_count (ls_cfg (fold_left config_line lines st)) = MAX_CFG_APPS.
Proof.
  revert st; induction lines as [|l lines IH]; intros st H; simpl;
    [auto|].
  destruct (config_line_apps st l) as [[Ea Ec]|(Hlt & _)]; [|lia].
  destruct (IH (config_line st l)) as [Ea' Ec']; [congruence|].
  split; congruence.
Qed.

Lemma find_app_from_ext (cfg cfg' : Config) (nm : cstr) (n i : nat) :
  apps cfg = apps cfg' ->
  find_app_from cfg nm i n = find_app_from cfg' nm i n.
Proof.
  intros E. revert i; induction n as [|n IH]; intros i; simpl;
    [reflexivity|].
  rewrite E. destruct (apps cfg' !! i) as [r|]; [|reflexivity].
  destruct (streq (app_name r) nm); [reflexivity | apply IH].
Qed.

Lemma config_find_app_ext (cfg cfg' : Config) (nm : cstr) :
  apps cfg = apps cfg' -> app_count cfg = app_count cfg' ->
  config_find_app cfg nm = config_find_app cfg' nm.
Proof.
  intros Ea Ec. unfold config_find_app. rewrite Ec.
  apply find_app_from_ext, Ea.
Qed.

(** C1 (the code departs from it). The rule the [dirs] branch stores has
    [allow = 1] when the value is [block] and [allow = 0] for every other
    value.  Loaded from a fresh configuration, the directory rule whose
    value is [block] gets [allow = 1] and the one whose value is [allow]
    gets [allow = 0]; [config_dir_allowed] returns these flags. *)
Theorem dirs_block_value_sets_allow :
  (forall k v : cstr,
      (v = str "block" /\ dir_allow (dir_rule_of k v) = 1%Z)
      \/ (v <> str "block" /\ dir_allow (dir_rule_of k v) = 0%Z)) /\
  let cfg :=
    fst (config_load config_init
           (Some (text ["[dirs]"; "/srv/autostart=block";
                        "/opt/autostart=allow"]%string))) in
  dirs cfg !! 0%nat = Some (mkDirRule (str "/srv/autostart") 1)
  /\ dirs cfg !! 1%nat = Some (mkDirRule (str "/opt/autostart") 0)
  /\ dir_count cfg = 2%Z
  /\ config_dir_allowed cfg (str "/srv/autostart") = 1%Z
  /\ config_dir_allowed cfg (str "/opt/autostart") = 0%Z.
Proof.
  split.
  - intros k v. unfold dir_rule_of. cbn [dir_allow].
    destruct (streq v (str "block")) eqn:E.
    + left. split; [apply streq_true, E | reflexivity].
    + right. split; [apply streq_false, E | reflexivity].
  - vm_compute. repeat split; reflexivity.
Qed.

Lemma apply_token_allow (r : AppRule) (token : cstr) :
  is_allow_token token = true ->
  apply_token r token
  = mkAppRule (app_name r) (atoi (drop 6 (trim token))) (app_delay_ms r).
Proof. unfold is_allow_token, apply_token. intros ->. reflexivity. Qed.

Lemma apply_token_other (r : AppRule) (token : cstr) :
  is_allow_token token = false ->
  app_allow (apply_token r token) = app_allow r.
Proof.
  unfold is_allow_token, apply_token. intros ->.
  destruct (has_prefix (str "delay:") (trim token)); reflexivity.
Qed.

(** Through the [strtok] loop the last [allow:] sub-token decides. *)
Lemma fold_apply_token_allow (tokens : list cstr) (r : AppRule) :
  app_allow (fold_left apply_token tokens r)
  = match last (List.filter is_allow_token tokens) with
    | Some t => atoi (drop 6 (trim t))
    | None => app_allow r
    end.
Proof.
  revert r; induction tokens as [|t tokens IH]; intros r; simpl;
    [reflexivity|].
  rewrite IH. destruct (is_allow_token t) eqn:E.
  - rewrite last_cons.
    destruct (last (List.filter is_allow_token tokens)); [reflexivity|].
    rewrite (apply_token_allow r t E). reflexivity.
  - destruct (last (List.filter is_allow_token tokens)); [reflexivity|].
    apply apply_token_other, E.
Qed.

End PolicyStore.

(** ** The scan and its policy gate *)

Section Scanner.
Import Libc Util Config Autostart Props.

(** The loop of the scan over the rules and [config_find_app] agree. *)
Lemma allowed_from_find (cfg : Config) (nm : cstr) (n i : nat) :
  allowed_from cfg nm i n
  = match find_app_from cfg nm i n with
    | Some r => app_allow r
    | None => 1%Z
    end.
Proof.
  revert i; induction n as [|n IH]; intros i; simpl; [reflexivity|].
  destruct (apps cfg !! i) as [r|]; [|reflexivity].
  destruct (streq (app_name r) nm); [reflexivity | apply IH].
Qed.

Lemma scan_entry_queue (env : Env) (cfg : Config) (dir : cstr)
      (st : ScanState) (d_name : cstr) :
  exists added,
    q_apps (sc_queue (scan_entry env cfg dir st d_name))
    = q_apps (sc_queue st) ++ added
    /\ Forall (admitted env cfg) added.
Proof.
  unfold scan_entry.
  destruct (strrchr d_name ".") as [ext|];
    [|exists []; rewrite app_nil_r; split; [reflexivity | constructor]].
  destruct (parse_desktop_file env _ zero_entry (sc_world st))
    as [[de r] w].
  repeat case_if; simpl;
    try (exists []; rewrite app_nil_r; split; [reflexivity | constructor]).
  exists [de]. split; [reflexivity|].
  repeat match goal with
         | H : _ || _ = false |- _ => apply orb_false_iff in H as [? ?]
         | H : negb _ = false |- _ => apply negb_false_iff in H
         | H : (_ =? _)%Z = true |- _ => apply Z.eqb_eq in H
         | H : (_ =? _)%Z = false |- _ => apply Z.eqb_neq in H
         end.
  constructor; [|constructor]. unfold admitted. auto.
Qed.

Lemma fold_scan_entry_queue (env : Env) (cfg : Config) (dir : cstr)
      (names : list cstr) (st : ScanState) :
  exists added,
    q_apps (sc_queue (fold_left (scan_entry env cfg dir) names st))
    = q_apps (sc_queue st) ++ added
    /\ Forall (admitted env cfg) added.
Proof.
  revert st; induction names as [|d names IH]; intros st; simpl.
  - exists []. rewrite app_nil_r. split; [reflexivity | constructor].
  - destruct (IH (scan_entry env cfg dir st d)) as (added2 & E2 & F2).
    destruct (scan_entry_queue env cfg dir st d) as (added1 & E1 & F1).
    exists (added1 ++ added2). rewrite E2, E1, app_assoc.
    split; [reflexivity | apply Forall_app; split; assumption].
Qed.

Lemma scan_autostart_dir_queue (env : Env) (cfg : Config) (dir : cstr)
      (idx : Z) (q : AppQueue) (w : World) :
  exists added,
    q_apps (snd (fst (scan_autostart_dir env cfg dir idx q w)))
    = q_apps q ++ added
    /\ Forall (admitted env cfg) added.
Proof.
  unfold scan_autostart_dir. destruct (opendir env dir) as [names|]; simpl.
  - apply (fold_scan_entry_queue env cfg dir names (mkScan q _ 0 0)).
  - exists []. rewrite app_nil_r. split; [reflexivity | constructor].
Qed.

End Scanner.

(** ** The launch sequence *)

Section Sequencer.
Import Libc Util Config Autostart Props.

Lemma launch_reports_app (a b : list Event) :
  launch_reports (a ++ b) = launch_reports a ++ launch_reports b.
Proof.
  induction a as [|e a IH]; simpl; [reflexivity|].
  destruct e; simpl; rewrite IH; reflexivity.
Qed.

Lemma outcomes_length (env : Env) (rest : list DesktopEntry) (nf : nat) :
  length (outcomes env nf rest) = length rest.
Proof.
  revert nf; induction rest as [|e rest IH]; intros nf; simpl; [reflexivity|].
  destruct (Nat.eqb (length (exec e)) 0); simpl; rewrite IH; reflexivity.
Qed.

Lemma successes_failures (oks : list bool) :
  (0 <= successes oks /\ 0 <= failures oks
   /\ successes oks + failures oks = Z.of_nat (length oks))%Z.
Proof.
  induction oks as [|[] oks IH]; simpl length; simpl successes;
    simpl failures; lia.
Qed.

Lemma to_int_small (z : Z) : (0 <= z <= INT_MAX)%Z -> to_int z = z.
Proof.
  unfold to_int, INT_MAX. intros H.
  rewrite Z.mod_small; lia.
Qed.

Lemma to_long_small (z : Z) : (0 <= z <= INT_MAX)%Z -> to_long z = z.
Proof.
  unfold to_long, INT_MAX. intros H.
  rewrite Z.mod_small; lia.
Qed.

(** [run_command] always returns: 0 without a [fork] for an empty command,
    otherwise what [fork] decides, the child running the sanitized
    command. *)
Lemma run_command_spec (env : Env) (cmd dir : cstr) (w : World) :
  run_command env cmd dir w
  = Some
      (if Nat.eqb (length cmd) 0 then (0%Z, w)
       else
         let w1 := mkWorld (out w) (S (forks w)) in
         match fork env (forks w) with
         | Some _ =>
             (1%Z,
              emit w1 (Spawn (sanitize (cstring (take (MAX_PATH - 1) cmd)))
                             dir))
         | None => (0%Z, w1)
         end).
Proof.
  unfold run_command. destruct (Nat.eqb (length cmd) 0); [reflexivity|].
  unfold strncpy.
  assert (exists k, MAX_PATH - length (take (MAX_PATH - 1) cmd) = S k)
    as [k Hk].
  { exists (MAX_PATH - length (take (MAX_PATH - 1) cmd) - 1).
    rewrite length_take. unfold MAX_PATH. lia. }
  rewrite Hk. simpl replicate.
  destruct (rds_buffer (take (MAX_PATH - 1) cmd) (replicate k NUL))
    as [tail Ht].
  rewrite Ht. simpl.
  rewrite cstring_app_nul
    by apply sanitize_nul_free, cstring_nul_free.
  destruct (fork env (forks w)); reflexivity.
Qed.

(** The loop invariant of [launch_queued_apps]: the loop reaches the end
    of the queue, reports every entry it passes, in order, and has counted
    the launches that succeeded. *)
Lemma launch_loop_spec (env : Env) (cfg : Config) (total : Z)
      (rest : list DesktopEntry) :
  forall (i sc : Z) (w : World),
    (0 <= sc)%Z ->
    (sc + Z.of_nat (length rest) <= INT_MAX)%Z ->
    exists w',
      launch_loop env cfg total i rest sc w
      = Some ((sc + successes (outcomes env (forks w) rest))%Z, w')
      /\ launch_reports (out w')
         = launch_reports (out w)
           ++ reports total i rest (outcomes env (forks w) rest).
Proof.
  induction rest as [|e rest IH]; intros i sc w Hsc Hmax.
  - exists w. simpl. rewrite Z.add_0_r, app_nil_r. auto.
  - cbn [launch_loop]. rewrite run_command_spec.
    cbn [outcomes reports successes length emit forks out] in *.
    destruct (Nat.eqb (length (exec e)) 0).
    + cbn [mbind option_bind negb Z.eqb].
      edestruct (IH (i + 1)%Z sc) as (w' & -> & Hrep); [lia | lia |].
      exists w'. split.
        { cbn [successes emit forks].
          apply f_equal, pair_equal_spec; split; [lia | reflexivity]. }
      rewrite Hrep. cbn [emit out forks].
      rewrite !launch_reports_app. cbn [launch_reports].
      rewrite app_nil_r, <- !app_assoc. reflexivity.
    + destruct (fork env (forks w)) as [pid|].
      * cbn [mbind option_bind negb Z.eqb].
        rewrite to_int_small by lia.
        edestruct (IH (i + 1)%Z (sc + 1)%Z) as (w' & -> & Hrep);
          [lia | lia |].
        exists w'. split.
        { cbn [successes emit forks].
          apply f_equal, pair_equal_spec; split; [lia | reflexivity]. }
        rewrite Hrep. cbn [emit out forks].
        rewrite !launch_reports_app. cbn [launch_reports].
        rewrite !app_nil_r, <- !app_assoc. reflexivity.
      * cbn [mbind option_bind negb Z.eqb].
        edestruct (IH (i + 1)%Z sc) as (w' & -> & Hrep); [lia | lia |].
        exists w'. split.
        { cbn [successes emit forks].
          apply f_equal, pair_equal_spec; split; [lia | reflexivity]. }
        rewrite Hrep. cbn [emit out forks].
        rewrite !launch_reports_app. cbn [launch_reports].
        rewrite app_nil_r, <- !app_assoc. reflexivity.
Qed.

(** C9. For a queue of N entries (N within [int], the type of the
    counter) [launch_queued_apps] returns; it reports the N entries in
    queue order, numbered 1 to N, an entry counting as launched exactly when
    its command is not empty and [fork] succeeded, whatever happened to the
    entries before it; and when N is not zero the summary it prints last
    gives N, the number launched and the number failed, which add up to
    N. *)
Theorem launch_counts_add_up (env : Env) (cfg : Config) (q : AppQueue)
        (w : World) :
  (Z.of_nat (count q) <= INT_MAX)%Z ->
  let N := Z.of_nat (count q) in
  let oks := outcomes env (forks w) (q_apps q) in
  exists w',
    launch_queued_apps env cfg q w = Some w'
    /\ length oks = count q
    /\ launch_reports (out w')
       = launch_reports (out w) ++ reports N 0 (q_apps q) oks
    /\ map (fun r => snd r) (reports N 0 (q_apps q) oks)
       = map name (q_apps q)
    /\ (successes oks + failures oks = N)%Z
    /\ (count q <> 0 ->
        last (out w') = Some (LaunchSummary N (successes oks) (failures oks))).
Proof.
  intros Hmax N oks. unfold launch_queued_apps. fold N.
  pose proof (successes_failures oks) as (Hs & Hf & Hsum).
  pose proof (outcomes_length env (q_apps q) (forks w)) as Hlen.
  fold oks in Hlen. rewrite Hlen in Hsum. fold (count q) in Hsum. fold N in Hsum.
  assert (Hnames : forall rest i nf,
             map (fun r => snd r)
                 (reports N i rest (outcomes env nf rest))
             = map name rest).
  { induction rest as [|e rest IH]; intros i nf; simpl; [reflexivity|].
    destruct (Nat.eqb (length (exec e)) 0); simpl; rewrite IH; reflexivity. }
  destruct (Z.eqb_spec N 0) as [HN|HN].
  - exists (emit w NoApps).
    assert (Hnil : q_apps q = []).
    { destruct (q_apps q) eqn:E; [reflexivity|].
      unfold N, count in HN. rewrite E in HN. simpl in HN. lia. }
    subst oks. rewrite Hnil in *. simpl.
    rewrite launch_reports_app, !app_nil_r.
    assert (Hcount : count q = 0%nat) by (unfold count; rewrite Hnil; reflexivity).
    repeat split; try reflexivity; try lia.
  - destruct (launch_loop_spec env cfg N (q_apps q) 0 0
                (emit w (LaunchHeader N DELAY_MS)))
      as (w1 & Hloop & Hrep); [lia | unfold N, count in *; lia |].
    rewrite Hloop. cbn [mbind option_bind].
    eexists; split; [reflexivity|].
    cbn [emit out forks] in *. fold oks in Hrep.
    split; [exact Hlen|].
    split.
    { rewrite launch_reports_app, Hrep, launch_reports_app.
      simpl. rewrite !app_nil_r. reflexivity. }
    split; [apply Hnames|].
    split; [exact Hsum|].
    intros _. rewrite last_snoc. f_equal. f_equal.
    rewrite Z.add_0_l. fold oks.
    rewrite to_long_small; [lia | subst N; lia].
Qed.

Lemma launch_counts_add_up_witness :
  exists w',
    launch_queued_apps second_fork_fails config_init four_entries
                       (mkWorld [] 0) = Some w'
    /\ launch_reports (out w')
       = [(1%Z, 4%Z, true, str "a"); (2%Z, 4%Z, false, str "b");
          (3%Z, 4%Z, false, str "c"); (4%Z, 4%Z, true, str "d")]
    /\ last (out w') = Some (LaunchSummary 4 2 2).
Proof.
  destruct (launch_counts_add_up second_fork_fails config_init four_entries
              (mkWorld [] 0))
    as (w' & Hrun & _ & Hrep & _ & _ & Hlast).
  - vm_compute. discriminate.
  - exists w'. split; [exact Hrun|]. split; [exact Hrep|].
    apply Hlast. discriminate.
Defined.

(** The launcher reads the two global delays of the configuration and
    nothing else of it. *)
Lemma launch_reads_global_delays_only (env : Env) (cfg cfg' : Config)
      (q : AppQueue) (w : World) :
  startup_delay_ms cfg = startup_delay_ms cfg' ->
  delay_ms cfg = delay_ms cfg' ->
  launch_queued_apps env cfg q w = launch_queued_apps env cfg' q w.
Proof.
  intros Hs Hd. unfold launch_queued_apps.
  assert (Hloop : forall rest total i sc w0,
             launch_loop env cfg total i rest sc w0
             = launch_loop env cfg' total i rest sc w0).
  { induction rest as [|e rest IH]; intros total i sc w0; simpl;
      [reflexivity|].
    unfold launch_delay. rewrite Hs, Hd.
    destruct (run_command env (exec e) (path e) _) as [[r w2]|];
      simpl; [apply IH | reflexivity]. }
  rewrite Hloop. reflexivity.
Qed.

(** C2 (the code departs from it). Under the policy
    [firefox=allow:1,delay:500] the rule for [firefox] holds the delay 500,
    yet a queue of two [firefox] entries is launched after the start-up
    delay (0 ms) and the global delay (200 ms). *)
Theorem rule_delay_is_not_applied :
  config_find_app firefox_delayed (str "firefox")
  = Some (mkAppRule (str "firefox") 1 500)
  /\ startup_delay_ms firefox_delayed = 0%Z
  /\ delay_ms firefox_delayed = 200%Z
  /\ out <$> launch_queued_apps forks_succeed firefox_delayed
               (mkQueue [entry_of "firefox" "firefox %u";
                         entry_of "firefox" "firefox %u"] 5)
               (mkWorld [] 0)
     = Some [LaunchHeader 2 200;
             Nanosleep 0 0;
             Spawn (str "firefox ") [];
             Launching 1 2 true (str "firefox");
             Nanosleep 0 200000000;
             Spawn (str "firefox ") [];
             Launching 2 2 true (str "firefox");
             LaunchSummary 2 2 0].
Proof. vm_compute. repeat split; reflexivity. Qed.

End Sequencer.

(** ** The entry parser *)

Section EntryParser.
Import Libc Util Config Autostart Props.

Lemma skip_space_head (s r : cstr) (c : ascii) :
  skip_space s = c :: r -> isspace c = false.
Proof.
  induction s as [|x s IH]; simpl; [discriminate|].
  destruct (isspace x) eqn:E; [exact IH|].
  intros [= <- <-]. exact E.
Qed.

Lemma trim_head (s r : cstr) (c : ascii) :
  trim s = c :: r -> isspace c = false.
Proof.
  unfold trim. destruct (skip_space s) as [|x t] eqn:E; [discriminate|].
  intros [= <- <-]. apply (skip_space_head _ _ _ E).
Qed.

(** The key of a line starts with the character the trimmed line starts
    with. *)
Lemma key_value_head (line k v r : cstr) (c : ascii) :
  key_value line = Some (c :: k, v) ->
  exists s, trim line = c :: s.
Proof.
  unfold key_value. destruct (trim line) as [|x s] eqn:E; [discriminate|].
  pose proof (trim_head _ _ _ E) as Hx. simpl.
  destruct (Ascii.eqb x "=").
  - simpl. discriminate.
  - destruct (strchr s "=") as [[pre post]|]; [|discriminate].
    unfold trim at 1. simpl. rewrite Hx. intros [= <- _ _]. eauto.
Qed.

Lemma is_type_application_head (line : cstr) :
  is_type_application line = true -> exists s, trim line = "T" :: s.
Proof.
  unfold is_type_application.
  destruct (key_value line) as [[k v]|] eqn:E; [|discriminate].
  intros [Hk _]%andb_true_iff. apply streq_true in Hk. subst k.
  apply (key_value_head _ _ _ [] _ E).
Qed.

Lemma desktop_line_spec (st : ParseState) (line : cstr) :
  match desktop_line st line with
  | inl st' =>
      in_desktop_entry st' = section_after (in_desktop_entry st) line
      /\ type_is_application st'
         = type_is_application st
           || (in_desktop_entry st && is_type_application line)
      /\ valid (ps_entry st') = valid (ps_entry st)
  | inr e =>
      e = ps_entry st /\ in_desktop_entry st = true
      /\ exists v, key_value line = Some (str "Type", v)
                   /\ v <> str "Application"
  end.
Proof.
  unfold desktop_line, section_after.
  destruct (is_type_application line) eqn:Happ.
  - (* the line is Type=Application *)
    destruct (is_type_application_head _ Happ) as [s Hs].
    unfold is_type_application, key_value in Happ. rewrite Hs in *.
    change (Ascii.eqb "T" "#") with false.
    change (Ascii.eqb "T" "[") with false. cbv iota.
    destruct (in_desktop_entry st) eqn:Hin; cbn [negb];
      [|rewrite orb_false_r; auto].
    destruct (strchr ("T" :: s) "=") as [[pre post]|]; [|discriminate].
    apply andb_true_iff in Happ as [-> ->]. simpl.
    rewrite orb_true_r. auto.
  - unfold is_type_application, key_value in Happ.
    destruct (trim line) as [|c s] eqn:Hs.
    { rewrite andb_false_r, orb_false_r. auto. }
    destruct (Ascii.eqb_spec c "#") as [->|_];
      [rewrite andb_false_r, orb_false_r; auto|].
    destruct (Ascii.eqb c "["); [rewrite andb_false_r, orb_false_r; auto|].
    destruct (in_desktop_entry st) eqn:Hin; cbn [negb];
      [|rewrite orb_false_r; auto].
    rewrite andb_false_r, orb_false_r.
    unfold key_value. rewrite Hs.
    destruct (strchr (c :: s) "=") as [[pre post]|]; [|auto].
    destruct (streq (trim pre) (str "Type")) eqn:Hk.
    + cbn [andb] in Happ. apply streq_true in Hk.
      rewrite Happ. cbn [negb].
      split; [reflexivity|]. split; [reflexivity|].
      exists (trim post). rewrite Hk. split; [reflexivity|].
      apply streq_false, Happ.
    + repeat case_if; simpl; auto.
Qed.

Lemma desktop_line_type_gate (st : ParseState) (line v : cstr) :
  in_desktop_entry st = true ->
  key_value line = Some (str "Type", v) ->
  v <> str "Application" ->
  desktop_line st line = inr (ps_entry st).
Proof.
  intros Hin Hkv Hv.
  destruct (key_value_head line _ v [] "T" Hkv) as [s Hs].
  unfold key_value in Hkv. unfold desktop_line. rewrite Hs in *.
  change (Ascii.eqb "T" "#") with false.
  change (Ascii.eqb "T" "[") with false. cbv iota.
  rewrite Hin. cbn [negb].
  destruct (strchr ("T" :: s) "=") as [[pre post]|]; [|discriminate].
  injection Hkv as Hk Hpost. rewrite Hk, Hpost, streq_refl.
  apply streq_false in Hv. rewrite Hv. reflexivity.
Qed.

Lemma parse_loop_app (a b : list cstr) (st : ParseState) :
  parse_loop st (a ++ b)
  = match parse_loop st a with
    | inl st' => parse_loop st' b
    | inr e => inr e
    end.
Proof.
  revert st; induction a as [|l a IH]; intros st; simpl; [reflexivity|].
  destruct (desktop_line st l); [apply IH | reflexivity].
Qed.

(** What the loop has established when it reaches the end of the lines. *)
Lemma parse_loop_end (lines : list cstr) :
  forall st st',
    parse_loop st lines = inl st' ->
    in_desktop_entry st'
    = fold_left section_after lines (in_desktop_entry st)
    /\ valid (ps_entry st') = valid (ps_entry st)
    /\ (type_is_application st' = true
        <-> type_is_application st = true
            \/ type_application_seen_from (in_desktop_entry st) lines).
Proof.
  induction lines as [|l lines IH]; intros st st' H; simpl in H.
  - injection H as <-. split; [reflexivity|]. split; [reflexivity|].
    split; [auto|]. intros [H|(pre & line & post & E & _)]; [assumption|].
    destruct pre; discriminate.
  - pose proof (desktop_line_spec st l) as Hl.
    destruct (desktop_line st l) as [st1|e]; [|discriminate].
    destruct Hl as (Hsec & Htype & Hvalid).
    destruct (IH _ _ H) as (Hsec' & Hvalid' & Htype').
    split; [simpl; rewrite Hsec', Hsec; reflexivity|].
    split; [congruence|].
    rewrite Htype', Htype, orb_true_iff, andb_true_iff. split.
    + intros [[Ht|[Hin Happ]]|(pre & line & post & E & Hopen & Happ)].
      * left; assumption.
      * right. exists [], l, lines. auto.
      * right. exists (l :: pre), line, post. subst lines.
        rewrite Hsec in Hopen. auto.
    + intros [Ht|(pre & line & post & E & Hopen & Happ)]; [auto|].
      destruct pre as [|l0 pre]; simpl in E; injection E as <- E.
      * left; right. simpl in Hopen. auto.
      * right. exists pre, line, post. rewrite Hsec. auto.
Qed.

(** At a [return 0] inside the loop the entry is still marked invalid. *)
Lemma parse_loop_return (lines : list cstr) :
  forall st e,
    parse_loop st lines = inr e -> valid e = valid (ps_entry st).
Proof.
  induction lines as [|l lines IH]; intros st e H; simpl in H;
    [discriminate|].
  pose proof (desktop_line_spec st l) as Hl.
  destruct (desktop_line st l) as [st1|e1].
  - destruct Hl as (_ & _ & Hvalid). rewrite <- Hvalid. apply IH, H.
  - destruct Hl as (-> & _). congruence.
Qed.

(** Outside the section, and with no line that opens it, nothing is read. *)
Lemma parse_loop_closed (lines : list cstr) (st : ParseState) :
  in_desktop_entry st = false ->
  Forall (fun l => section_after false l = false) lines ->
  parse_loop st lines = inl st.
Proof.
  intros Hin Hall. induction Hall as [|l lines Hl Hall IH]; simpl;
    [reflexivity|].
  assert (desktop_line st l = inl st) as ->; [|exact IH].
  destruct st as [e b t]. simpl in Hin. subst b.
  unfold desktop_line, section_after in *. simpl in *.
  destruct (trim l) as [|c s]; [reflexivity|].
  destruct (Ascii.eqb c "#"); [reflexivity|].
  destruct (Ascii.eqb c "["); [rewrite Hl|]; reflexivity.
Qed.

(** C7 (the code departs from it). A section line that only contains the
    text [[Desktop Entry]], inside a longer name or before other text,
    switches the reading of key=value lines on: both files below parse as a
    valid application, while a section whose name does not contain that
    text is not read. *)
Theorem section_gate_matches_substring :
  parse_lines (fgets_lines MAX_LINE (text stray_file))
  = (mkEntry (str "Stray") (str "stray --run") [] [] [] 0 0 0 1, 1%Z)
  /\ parse_lines (fgets_lines MAX_LINE (text trailing_file))
     = (mkEntry (str "Stray") (str "stray --run") [] [] [] 0 0 0 1, 1%Z)
  /\ parse_lines (fgets_lines MAX_LINE (text action_file)) = (zero_entry, 0%Z).
Proof. vm_compute. repeat split; reflexivity. Qed.

End EntryParser.

(** ** [trim] *)

Section Trim.
Import Libc Util Props.

Lemma skip_space_split (s : cstr) :
  exists ws, all_space ws /\ s = ws ++ skip_space s.
Proof.
  induction s as [|c s (ws & Hws & E)]; simpl.
  - exists []. split; [constructor | reflexivity].
  - destruct (isspace c) eqn:Hc.
    + exists (c :: ws). split; [constructor; assumption|].
      simpl. rewrite <- E. reflexivity.
    + exists []. split; [constructor | reflexivity].
Qed.

Lemma skip_space_pad (ws s : cstr) :
  all_space ws -> skip_space (ws ++ s) = skip_space s.
Proof.
  induction 1 as [|c ws Hc Hws IH]; simpl; [reflexivity|].
  rewrite Hc. exact IH.
Qed.

Lemma rstrip_all_space (ws : cstr) : all_space ws -> rstrip ws = [].
Proof.
  induction 1 as [|c ws Hc Hws IH]; simpl; [reflexivity|].
  rewrite IH, Hc. reflexivity.
Qed.

Lemma rstrip_pad (s ws : cstr) :
  all_space ws -> rstrip (s ++ ws) = rstrip s.
Proof.
  intros Hws. induction s as [|c s IH]; simpl.
  - apply rstrip_all_space, Hws.
  - rewrite IH. reflexivity.
Qed.

Lemma rstrip_split (s : cstr) :
  exists ws, all_space ws /\ s = rstrip s ++ ws.
Proof.
  induction s as [|c s (ws & Hws & E)]; simpl.
  - exists []. split; [constructor | reflexivity].
  - destruct (rstrip s) as [|d r] eqn:Hr.
    + destruct (isspace c) eqn:Hc.
      * exists (c :: ws). split; [constructor; assumption|].
        simpl. f_equal. exact E.
      * exists ws. split; [assumption|]. simpl. f_equal. exact E.
    + exists ws. split; [assumption|]. simpl. f_equal. exact E.
Qed.

Lemma rstrip_ends_solid (s : cstr) : ends_solid (rstrip s).
Proof.
  unfold ends_solid. induction s as [|c s IH]; simpl; [exact I|].
  destruct (rstrip s) as [|d r] eqn:Hr.
  - destruct (isspace c) eqn:Hc; simpl; [exact I | exact Hc].
  - rewrite last_cons_cons. exact IH.
Qed.

Lemma rstrip_idem (s : cstr) : rstrip (rstrip s) = rstrip s.
Proof.
  induction s as [|c s IH]; simpl; [reflexivity|].
  destruct (rstrip s) as [|d r] eqn:Hr.
  - destruct (isspace c) eqn:Hc; simpl; [reflexivity|].
    rewrite Hc. reflexivity.
  - simpl in *. rewrite IH. reflexivity.
Qed.

(** X1. [trim] cuts white space and nothing else: the string is a run of
    white space, the result, and a run of white space; and the result
    neither starts nor ends with white space. *)
Theorem trim_cuts_only_white_space (s : cstr) :
  (exists ws1 ws2,
      all_space ws1 /\ all_space ws2 /\ s = ws1 ++ trim s ++ ws2)
  /\ starts_solid (trim s)
  /\ ends_solid (trim s).
Proof.
  destruct (skip_space_split s) as (ws1 & Hws1 & E1).
  unfold trim. destruct (skip_space s) as [|c r] eqn:Hskip.
  - split; [|split; exact I].
    exists ws1, []. split; [assumption|]. split; [constructor|].
    rewrite app_nil_r in *. assumption.
  - pose proof (skip_space_head _ _ _ Hskip) as Hc.
    destruct (rstrip_split r) as (ws2 & Hws2 & E2).
    split; [|split].
    + exists ws1, ws2. split; [assumption|]. split; [assumption|].
      rewrite E1 at 1. simpl. rewrite <- E2. reflexivity.
    + exact Hc.
    + pose proof (rstrip_ends_solid r) as Hr. unfold ends_solid in *.
      destruct (rstrip r) as [|d t]; [exact Hc|].
      rewrite last_cons_cons. exact Hr.
Qed.

(** X2. Trimming twice is trimming once. *)
Theorem trim_idempotent (s : cstr) : trim (trim s) = trim s.
Proof.
  unfold trim. destruct (skip_space s) as [|c r] eqn:Hskip;
    [reflexivity|].
  pose proof (skip_space_head _ _ _ Hskip) as Hc.
  simpl. rewrite Hc, rstrip_idem. reflexivity.
Qed.

(** White space around a string does not change what [trim] gives. *)
Lemma trim_pad (ws1 s ws2 : cstr) :
  all_space ws1 -> all_space ws2 -> trim (ws1 ++ s ++ ws2) = trim s.
Proof.
  intros H1 H2. unfold trim. rewrite (skip_space_pad _ _ H1).
  destruct (skip_space_split s) as (ws & Hws & E).
  destruct (skip_space s) as [|c r] eqn:Hskip.
  - rewrite app_nil_r in E. subst s.
    assert (Hall : all_space (ws ++ ws2)) by (apply Forall_app; auto).
    rewrite <- (app_nil_r (ws ++ ws2)), (skip_space_pad _ _ Hall).
    reflexivity.
  - rewrite E, <- app_assoc, (skip_space_pad _ _ Hws). simpl.
    rewrite (skip_space_head _ _ _ Hskip), (rstrip_pad _ _ H2). reflexivity.
Qed.

Lemma trim_length (s : cstr) : length (trim s) <= length s.
Proof.
  destruct (skip_space_split s) as (ws1 & _ & E1).
  unfold trim. destruct (skip_space s) as [|c r]; [simpl; lia|].
  destruct (rstrip_split r) as (ws2 & _ & E2).
  apply (f_equal length) in E1, E2. rewrite length_app in E1, E2.
  simpl in *. lia.
Qed.

End Trim.

(** ** The sanitizer works within the string *)

Section SanitizerFrame.
Import Libc Util Props.

Lemma sanitize_length (s : cstr) : length (sanitize s) <= length s.
Proof.
  induction s as [s IH] using (induction_ltof1 _ (@length ascii)).
  unfold ltof in IH. destruct s as [|c rest]; simpl; [lia|].
  destruct (Ascii.eqb c percent).
  - destruct rest as [|d rest']; simpl; [lia|].
    specialize (IH rest'). simpl in IH. lia.
  - specialize (IH rest). simpl in *. lia.
Qed.

(** The loop writes at [dst], which never passes [src], so nothing behind
    the terminator changes and the buffer keeps its size. *)
Lemma rds_loop_frame (fuel : nat) :
  forall (mem mem' : list ascii) (src dst : nat) (rest junk : list ascii),
    nul_free rest ->
    drop src mem = rest ++ NUL :: junk ->
    dst <= src ->
    rds_loop fuel mem src dst = Some mem' ->
    length mem' = length mem
    /\ drop (S (src + length rest)) mem' = junk.
Proof.
  induction fuel as [|fuel IH];
    intros mem mem' src dst rest junk Hnf Hdrop Hle Hrun; [discriminate|].
  simpl in Hrun. destruct rest as [|c rest].
  - simpl in Hdrop. rewrite (peek_drop _ _ _ _ Hdrop) in Hrun. simpl in Hrun.
    injection Hrun as <-. rewrite length_insert. split; [reflexivity|].
    rewrite drop_insert_lt by (simpl; lia).
    simpl. rewrite Nat.add_0_r. apply (drop_succ _ _ _ _ Hdrop).
  - inversion Hnf as [|? ? Hc Hrest]; subst.
    simpl in Hdrop. rewrite (peek_drop _ _ _ _ Hdrop), Hc in Hrun.
    pose proof (drop_succ _ _ _ _ Hdrop) as Hdrop1.
    destruct (Ascii.eqb c percent).
    + destruct rest as [|d rest].
      * simpl in Hdrop1. rewrite (peek_drop _ _ _ _ Hdrop1) in Hrun.
        simpl in Hrun.
        destruct (IH mem mem' (S src) dst [] junk Hrest Hdrop1
                     ltac:(lia) Hrun) as [Hlen Hjunk].
        split; [assumption|]. simpl in *.
        replace (S (src + 1)) with (S (S src + 0)) by lia. assumption.
      * inversion Hrest as [|? ? Hd Hrest']; subst.
        simpl in Hdrop1. rewrite (peek_drop _ _ _ _ Hdrop1), Hd in Hrun.
        destruct (IH mem mem' (S (S src)) dst rest junk Hrest'
                     (drop_succ _ _ _ _ Hdrop1) ltac:(lia) Hrun)
          as [Hlen Hjunk].
        split; [assumption|]. simpl length.
        replace (S (src + S (S (length rest))))
          with (S (S (S src) + length rest)) by lia.
        assumption.
    + assert (Hdrop' : drop (S src) (<[dst := c]> mem)
                       = rest ++ NUL :: junk).
      { rewrite drop_insert_lt by lia. assumption. }
      destruct (IH (<[dst := c]> mem) mem' (S src) (S dst) rest junk Hrest
                   Hdrop' ltac:(lia) Hrun)
        as [Hlen Hjunk].
      rewrite length_insert in Hlen. split; [assumption|]. simpl length.
      replace (S (src + S (length rest)))
        with (S (S src + length rest)) by lia.
      assumption.
Qed.

(** X3. On a buffer that holds a string, its terminator and other bytes,
    [remove_desktop_specifiers] returns a buffer of the same size in which
    the bytes behind the terminator are what they were, and the string it
    leaves is not longer than the one it found. *)
Theorem sanitizer_stays_within_the_string (s junk : list ascii) :
  let mem := s ++ NUL :: junk in
  exists mem',
    remove_desktop_specifiers mem = Some mem'
    /\ length mem' = length mem
    /\ drop (S (length (cstring mem))) mem'
       = drop (S (length (cstring mem))) mem
    /\ length (cstring mem') <= length (cstring mem).
Proof.
  intros mem. subst mem.
  destruct (cstring_split s junk) as [junk' Hsplit].
  pose proof (cstring_nul_free s) as Hnf.
  destruct (rds_refines s junk) as (mem' & Hrun & Hstr).
  exists mem'. split; [assumption|].
  assert (Hc : cstring (s ++ NUL :: junk) = cstring s).
  { rewrite Hsplit. apply cstring_app_nul, Hnf. }
  rewrite Hc.
  unfold remove_desktop_specifiers in Hrun.
  destruct (rds_loop_frame _ _ _ 0 0 (cstring s) junk' Hnf Hsplit
              (Nat.le_refl 0) Hrun) as [Hlen Hjunk].
  split; [assumption|]. split.
  - simpl in Hjunk. rewrite Hjunk, Hsplit, cons_middle, app_assoc.
    rewrite drop_app_length'; [reflexivity|].
    rewrite length_app. simpl. lia.
  - rewrite Hstr. apply sanitize_length.
Qed.

End SanitizerFrame.

(** ** Looking rules up *)

Section Lookup.
Import Libc Util Config Props.

Lemma find_app_from_some (cfg : Config) (nm : cstr) (n : nat) :
  forall (i : nat) (r : AppRule),
    find_app_from cfg nm i n = Some r ->
    exists j,
      i <= j < i + n /\ apps cfg !! j = Some r /\ app_name r = nm
      /\ forall k r', i <= k < j -> apps cfg !! k = Some r' ->
                      app_name r' <> nm.
Proof.
  induction n as [|n IH]; intros i r H; simpl in H; [discriminate|].
  destruct (apps cfg !! i) as [r0|] eqn:E; [|discriminate].
  destruct (streq (app_name r0) nm) eqn:Hn.
  - injection H as <-. exists i. apply streq_true in Hn.
    repeat split; auto; try (intros; lia).
  - destruct (IH _ _ H) as (j & Hj & Hlook & Hname & Hfirst).
    exists j. repeat split; auto; try lia.
    intros k r' Hk Hk'. destruct (decide (k = i)) as [->|Hne].
    + rewrite E in Hk'. injection Hk' as <-. apply streq_false, Hn.
    + apply (Hfirst k r'); [lia | assumption].
Qed.

Lemma find_app_from_none (cfg : Config) (nm : cstr) (n : nat) :
  forall i : nat,
    find_app_from cfg nm i n = None ->
    forall k r', i <= k < i + n -> apps cfg !! k = Some r' ->
                 app_name r' <> nm.
Proof.
  induction n as [|n IH]; intros i H k r' Hk Hk'; [lia|].
  simpl in H. destruct (apps cfg !! i) as [r0|] eqn:E.
  - destruct (streq (app_name r0) nm) eqn:Hn; [discriminate|].
    destruct (decide (k = i)) as [->|Hne].
    + rewrite E in Hk'. injection Hk' as <-. apply streq_false, Hn.
    + apply (IH _ H k r'); [lia | assumption].
  - apply lookup_ge_None in E. apply lookup_lt_Some in Hk'. lia.
Qed.

(** X4. [config_find_app] gives the first of the [app_count] stored rules
    whose name is the one asked for, and nothing exactly when none of them
    has that name. *)
Theorem find_app_is_first_match (cfg : Config) (nm : cstr) :
  match config_find_app cfg nm with
  | Some r =>
      exists j,
        j < Z.to_nat (app_count cfg) /\ apps cfg !! j = Some r
        /\ app_name r = nm
        /\ forall k r', k < j -> apps cfg !! k = Some r' -> app_name r' <> nm
  | None =>
      forall k r', k < Z.to_nat (app_count cfg) -> apps cfg !! k = Some r' ->
                   app_name r' <> nm
  end.
Proof.
  unfold config_find_app.
  destruct (find_app_from cfg nm 0 (Z.to_nat (app_count cfg))) as [r|] eqn:E.
  - destruct (find_app_from_some _ _ _ _ _ E) as (j & Hj & Hl & Hn & Hf).
    exists j. repeat split; auto; try lia.
    intros k r' Hk. apply Hf. lia.
  - intros k r' Hk. apply (find_app_from_none _ _ _ _ E). lia.
Qed.

Lemma dir_allowed_from_spec (cfg : Config) (p : cstr) (n : nat) :
  forall i : nat,
    (exists j r,
        i <= j < i + n /\ dirs cfg !! j = Some r /\ dir_path r = p
        /\ (forall k r', i <= k < j -> dirs cfg !! k = Some r' ->
                         dir_path r' <> p)
        /\ dir_allowed_from cfg p i n = dir_allow r)
    \/ ((forall k r', i <= k < i + n -> dirs cfg !! k = Some r' ->
                      dir_path r' <> p)
        /\ dir_allowed_from cfg p i n = 0%Z).
Proof.
  induction n as [|n IH]; intros i; simpl.
  - right. split; [intros; lia | reflexivity].
  - destruct (dirs cfg !! i) as [r0|] eqn:E.
    + destruct (streq (dir_path r0) p) eqn:Hn.
      * left. exists i, r0. apply streq_true in Hn.
        repeat split; auto; try (intros; lia).
      * apply streq_false in Hn.
        destruct (IH (S i)) as [(j & r & Hj & Hl & Hp & Hf & Hv)|[Hf Hv]].
        -- left. exists j, r. repeat split; auto; try lia.
           intros k r' Hk Hk'. destruct (decide (k = i)) as [->|Hne].
           ++ rewrite E in Hk'. injection Hk' as <-. exact Hn.
           ++ apply (Hf k r'); [lia | assumption].
        -- right. split; [|assumption].
           intros k r' Hk Hk'. destruct (decide (k = i)) as [->|Hne].
           ++ rewrite E in Hk'. injection Hk' as <-. exact Hn.
           ++ apply (Hf k r'); [lia | assumption].
    + right. split; [|reflexivity].
      intros k r' Hk Hk'. apply lookup_ge_None in E.
      apply lookup_lt_Some in Hk'. lia.
Qed.

(** X5. [config_dir_allowed] returns the [allow] flag of the first of the
    [dir_count] stored rules whose path is exactly the one asked for, and 0
    when no stored rule has that path. *)
Theorem dir_allowed_is_first_match (cfg : Config) (p : cstr) :
  (exists j r,
      j < Z.to_nat (dir_count cfg) /\ dirs cfg !! j = Some r
      /\ dir_path r = p
      /\ (forall k r', k < j -> dirs cfg !! k = Some r' -> dir_path r' <> p)
      /\ config_dir_allowed cfg p = dir_allow r)
  \/ ((forall k r', k < Z.to_nat (dir_count cfg) ->
                    dirs cfg !! k = Some r' -> dir_path r' <> p)
      /\ config_dir_allowed cfg p = 0%Z).
Proof.
  unfold config_dir_allowed.
  destruct (dir_allowed_from_spec cfg p (Z.to_nat (dir_count cfg)) 0)
    as [(j & r & Hj & Hl & Hp & Hf & Hv)|[Hf Hv]].
  - left. exists j, r. repeat split; auto; try lia.
    intros k r' Hk. apply Hf. lia.
  - right. split; [|assumption]. intros k r' Hk. apply Hf. lia.
Qed.

End Lookup.

(** ** Reading one line of the policy file *)

Section PolicyLine.
Import Libc Util Config Props.

Lemma span_spec (ok : ascii -> bool) (s : cstr) :
  s = fst (span ok s) ++ snd (span ok s)
  /\ Forall (fun c => ok c = true) (fst (span ok s)).
Proof.
  induction s as [|c s [E F]]; simpl; [split; [reflexivity | constructor]|].
  destruct (ok c) eqn:Hc; simpl.
  - destruct (span ok s) as [a b]; simpl in *.
    split; [rewrite <- E; reflexivity | constructor; assumption].
  - split; [reflexivity | constructor].
Qed.

(** What a conversion [%N[...]] takes: a prefix of the input, not empty,
    of at most [N] characters, all of them in the scanset. *)
Lemma scanset_spec (width : nat) (ok : ascii -> bool) (s tok rest : cstr) :
  scanset width ok s = Some (tok, rest) ->
  s = tok ++ rest /\ tok <> [] /\ length tok <= width
  /\ Forall (fun c => ok c = true) tok.
Proof.
  unfold scanset. destruct (span_spec ok s) as [E F].
  destruct (span ok s) as [a b]; simpl in *.
  destruct (take width a) as [|c t] eqn:Ht; [discriminate|].
  rewrite <- Ht. intros [= <- <-].
  assert (Htake : take width a = take (length (take width a)) s).
  { rewrite length_take, E, take_app_le by lia.
    destruct (Nat.min_spec width (length a)) as [[Hlt ->]|[Hge ->]];
      [reflexivity|].
    rewrite !take_ge by lia. reflexivity. }
  split.
  { replace (S (length t)) with (length (take width a))
      by (rewrite Ht; reflexivity).
    rewrite Htake at 1. symmetry. apply take_drop. }
  split; [rewrite Ht; discriminate|].
  split; [rewrite length_take; lia|].
  apply Forall_take, F.
Qed.

Lemma scan_key_val_key_length (s key val : cstr) :
  scan_key_val s = Some (key, val) -> length key <= 255.
Proof.
  unfold scan_key_val.
  destruct (scanset 255 _ s) as [[k r]|] eqn:Hk; [|discriminate].
  destruct (scanset_spec _ _ _ _ _ Hk) as (_ & _ & Hlen & _).
  destruct r as [|c r]; [discriminate|].
  destruct c as [[] [] [] [] [] [] [] []]; try discriminate.
  destruct (scanset 255 _ r) as [[v r']|]; [|discriminate].
  intros [= <- _]. exact Hlen.
Qed.

(** X6. When [sscanf] splits a line into key and value, the line is the
    key, an [=], the value and possibly more; the key holds no [=] (so the
    line is split at its first [=]); key and value are not empty and are at
    most 255 characters long. *)
Theorem key_value_split (s key val : cstr) :
  scan_key_val s = Some (key, val) ->
  (exists rest, s = key ++ "=" :: val ++ rest)
  /\ Forall (fun c => c <> "=") key
  /\ key <> [] /\ val <> []
  /\ length key <= 255 /\ length val <= 255.
Proof.
  unfold scan_key_val.
  destruct (scanset 255 _ s) as [[k r]|] eqn:Hk; [|discriminate].
  destruct r as [|c r]; [discriminate|].
  destruct (Ascii.eqb_spec c "=") as [->|Hne].
  2:{ destruct c as [[] [] [] [] [] [] [] []]; try discriminate.
      contradiction. }
  change (match "="%char with
          | "="%char => ?x | _ => ?y end) with x.
  destruct (scanset 255 _ r) as [[v r']|] eqn:Hv; [|discriminate].
  intros [= <- <-].
  destruct (scanset_spec _ _ _ _ _ Hk) as (Es & Hk0 & Hklen & Hkok).
  destruct (scanset_spec _ _ _ _ _ Hv) as (Er & Hv0 & Hvlen & Hvok).
  split; [exists r'; rewrite Es, Er; reflexivity|].
  split.
  { eapply Forall_impl; [exact Hkok|]. intros c Hc ->. discriminate. }
  auto.
Qed.

Lemma key_value_split_witness :
  (exists rest, str "Exec=env A=1 app" = str "Exec" ++ "=" :: str "env A=1 app" ++ rest)
  /\ Forall (fun c => c <> "=") (str "Exec")
  /\ str "Exec" <> [] /\ str "env A=1 app" <> []
  /\ length (str "Exec") <= 255 /\ length (str "env A=1 app") <= 255.
Proof.
  apply (key_value_split (str "Exec=env A=1 app")). reflexivity.
Defined.

Lemma delay_is_not_allow (t : cstr) :
  has_prefix (str "delay:") t = true -> has_prefix (str "allow:") t = false.
Proof.
  destruct t as [|c t]; [discriminate|].
  cbn [has_prefix str list_ascii_of_string].
  intros [H _]%andb_true_iff. apply Ascii.eqb_eq in H. subst c.
  reflexivity.
Qed.

Lemma fold_apply_token_name (tokens : list cstr) (r : AppRule) :
  app_name (fold_left apply_token tokens r) = app_name r.
Proof.
  revert r; induction tokens as [|t tokens IH]; intros r; simpl;
    [reflexivity|].
  rewrite IH. unfold apply_token. repeat case_if; reflexivity.
Qed.

Lemma fold_apply_token_delay (tokens : list cstr) (r : AppRule) :
  app_delay_ms (fold_left apply_token tokens r)
  = match last (List.filter is_delay_token tokens) with
    | Some t => atoi (drop 6 (trim t))
    | None => app_delay_ms r
    end.
Proof.
  revert r; induction tokens as [|t tokens IH]; intros r; simpl;
    [reflexivity|].
  rewrite IH. unfold is_delay_token at 2, apply_token.
  destruct (has_prefix (str "delay:") (trim t)) eqn:E.
  - rewrite (delay_is_not_allow _ E), last_cons.
    destruct (last (List.filter is_delay_token tokens)); reflexivity.
  - destruct (last (List.filter is_delay_token tokens)); [reflexivity|].
    destruct (has_prefix (str "allow:") (trim t)); reflexivity.
Qed.

Lemma app_rule_of_name (k v : cstr) :
  app_name (app_rule_of k v) = take 255 k.
Proof. unfold app_rule_of. rewrite fold_apply_token_name. reflexivity. Qed.

(** X7. The rule the [apps] branch stores for a key and a value: its name
    is the key cut to 255 characters; its [allow] is the number of the last
    [allow:] sub-token, 1 without one; its delay is the number of the last
    [delay:] sub-token, -1 without one.  Other sub-tokens, and the order of
    an [allow:] and a [delay:] sub-token, make no difference. *)
Theorem app_rule_of_tokens (k v : cstr) :
  app_rule_of k v
  = mkAppRule
      (take 255 k)
      match last (List.filter is_allow_token (strtok v ",")) with
      | Some t => atoi (drop 6 (trim t))
      | None => 1%Z
      end
      match last (List.filter is_delay_token (strtok v ",")) with
      | Some t => atoi (drop 6 (trim t))
      | None => (-1)%Z
      end.
Proof.
  unfold app_rule_of.
  pose proof (fold_apply_token_name (strtok v ",")
                (mkAppRule (strncpy 255 k) 1 (-1))) as Hn.
  pose proof (fold_apply_token_allow (strtok v ",")
                (mkAppRule (strncpy 255 k) 1 (-1))) as Ha.
  pose proof (fold_apply_token_delay (strtok v ",")
                (mkAppRule (strncpy 255 k) 1 (-1))) as Hd.
  destruct (fold_left apply_token _ _) as [n a d]. simpl in *.
  rewrite Hn, Ha, Hd. reflexivity.
Qed.

End PolicyLine.

(** ** Storing rules and finding them again *)

Section PolicyRoundTrip.
Import Libc Util Config Props.

(** The six things a line of the policy file can do. *)
Lemma config_line_cases (st : LoadState) (line : cstr) :
  let cfg := ls_cfg st in
  config_line st line = st
  \/ (is_section_line line = true
      /\ exists sec, config_line st line = mkLoadState cfg sec)
  \/ (ls_section st = str "general"
      /\ exists v, config_line st line
                   = mkLoadState (set_startup_delay_ms cfg v) (ls_section st))
  \/ (ls_section st = str "general"
      /\ exists v, config_line st line
                   = mkLoadState (set_delay_ms cfg v) (ls_section st))
  \/ (exists key val,
         scan_key_val (trim line) = Some (key, val)
         /\ ls_section st = str "apps"
         /\ (app_count cfg < MAX_CFG_APPS)%Z
         /\ config_line st line
            = mkLoadState (push_app cfg (app_rule_of (trim key) (trim val)))
                          (ls_section st))
  \/ (exists key val,
         scan_key_val (trim line) = Some (key, val)
         /\ ls_section st = str "dirs"
         /\ (dir_count cfg < MAX_CFG_DIRS)%Z
         /\ config_line st line
            = mkLoadState (push_dir cfg (dir_rule_of (trim key) (trim val)))
                          (ls_section st)).
Proof.
  unfold config_line, is_section_line.
  destruct (trim line) as [|c s] eqn:Ht; [left; reflexivity|].
  destruct (Ascii.eqb c "#"); [left; reflexivity|].
  destruct (Ascii.eqb c "[").
  { right; left. split; [reflexivity | eexists; reflexivity]. }
  destruct (scan_key_val (c :: s)) as [[key val]|]; [|left; reflexivity].
  destruct (streq (ls_section st) (str "general")) eqn:Hg.
  { apply streq_true in Hg.
    destruct (streq (trim key) (str "startup_delay")).
    - right; right; left. split; [assumption | eexists; reflexivity].
    - destruct (streq (trim key) (str "delay")); [|left; reflexivity].
      right; right; right; left.
      split; [assumption | eexists; reflexivity]. }
  destruct (streq (ls_section st) (str "apps")) eqn:Ha.
  { apply streq_true in Ha. cbn [andb].
    destruct (Z.ltb_spec (app_count (ls_cfg st)) MAX_CFG_APPS).
    - right; right; right; right; left. exists key, val. auto.
    - destruct (streq (ls_section st) (str "dirs")
                && (dir_count (ls_cfg st) <? MAX_CFG_DIRS)%Z) eqn:Hd;
        [|left; reflexivity].
      apply andb_true_iff in Hd as [Hd _]. apply streq_true in Hd.
      rewrite Ha in Hd. discriminate. }
  cbn [andb]. destruct (streq (ls_section st) (str "dirs")) eqn:Hd;
    [|left; reflexivity].
  apply streq_true in Hd. cbn [andb].
  destruct (Z.ltb_spec (dir_count (ls_cfg st)) MAX_CFG_DIRS);
    [|left; reflexivity].
  right; right; right; right; right. exists key, val. auto.
Qed.

Lemma find_app_from_insert (cfg cfg' : Config) (nm : cstr) (c : nat)
      (x : AppRule) (n : nat) :
  apps cfg' = <[c := x]> (apps cfg) ->
  forall i, i + n <= c ->
            find_app_from cfg' nm i n = find_app_from cfg nm i n.
Proof.
  intros E. induction n as [|n IH]; intros i Hi; simpl; [reflexivity|].
  rewrite E, list_lookup_insert_ne by lia.
  destruct (apps cfg !! i) as [r|]; [|reflexivity].
  destruct (streq (app_name r) nm); [reflexivity|]. apply IH. lia.
Qed.

Lemma find_app_from_more (cfg : Config) (nm : cstr) (r : AppRule) (n : nat) :
  forall i, find_app_from cfg nm i n = Some r ->
            find_app_from cfg nm i (S n) = Some r.
Proof.
  induction n as [|n IH]; intros i H; [discriminate|].
  simpl in H. cbn [find_app_from].
  destruct (apps cfg !! i) as [r0|]; [|discriminate].
  destruct (streq (app_name r0) nm); [assumption|].
  apply IH in H. exact H.
Qed.

Lemma find_app_from_snoc (cfg : Config) (nm : cstr) (r : AppRule) (n : nat) :
  forall i, find_app_from cfg nm i n = None ->
            apps cfg !! (i + n) = Some r ->
            app_name r = nm ->
            find_app_from cfg nm i (S n) = Some r.
Proof.
  induction n as [|n IH]; intros i H Hl Hn.
  - rewrite Nat.add_0_r in Hl. simpl. rewrite Hl, Hn, streq_refl.
    reflexivity.
  - simpl in H. cbn [find_app_from].
    destruct (apps cfg !! i) as [r0|] eqn:E.
    + destruct (streq (app_name r0) nm); [discriminate|].
      apply IH; [assumption | | assumption].
      replace (S i + n) with (i + S n) by lia. assumption.
    + apply lookup_ge_None in E. apply lookup_lt_Some in Hl. lia.
Qed.

Lemma config_line_keeps_rule (st : LoadState) (line nm : cstr) (r : AppRule) :
  within_caps (ls_cfg st) ->
  config_find_app (ls_cfg st) nm = Some r ->
  config_find_app (ls_cfg (config_line st line)) nm = Some r.
Proof.
  intros (Hc & _) Hfind.
  destruct (config_line_apps st line) as [[Ea Ec]|(Hlt & [x Ea] & Ec)].
  - rewrite <- Hfind. apply config_find_app_ext; assumption.
  - unfold config_find_app in *. rewrite Ec.
    replace (Z.to_nat (app_count (ls_cfg st) + 1))
      with (S (Z.to_nat (app_count (ls_cfg st)))) by lia.
    apply find_app_from_more.
    rewrite (find_app_from_insert _ _ _ _ _ _ Ea) by lia. assumption.
Qed.

(** X8. A rule once stored is never overwritten: what [config_find_app]
    finds for a name stays what it is, whatever lines are read afterwards
    (the first definition of a name wins). *)
Theorem first_definition_wins (st : LoadState) (lines : list cstr)
        (nm : cstr) (r : AppRule) :
  within_caps (ls_cfg st) ->
  config_find_app (ls_cfg st) nm = Some r ->
  config_find_app (ls_cfg (fold_left config_line lines st)) nm = Some r.
Proof.
  revert st; induction lines as [|l lines IH]; intros st Hcaps Hfind; simpl;
    [assumption|].
  apply IH; [apply config_line_within_caps, Hcaps|].
  apply config_line_keeps_rule; assumption.
Qed.

Lemma first_definition_wins_witness :
  config_find_app
    (ls_cfg (fold_left config_line
               [str "firefox=allow:1"; str "[general]"; str "delay=5"]
               (load_lines config_init
                           [str "[apps]"; str "firefox=allow:0,delay:9"])))
    (str "firefox")
  = Some (mkAppRule (str "firefox") 0 9).
Proof.
  apply first_definition_wins.
  - repeat split; vm_compute; (reflexivity || discriminate).
  - vm_compute. reflexivity.
Defined.

(** X9. In the section [apps], below the ceiling, a key=value line for a
    name that has no rule yet stores a rule that [config_find_app] finds
    under the trimmed key: the rule made of the line's sub-tokens. *)
Theorem stored_rule_is_found (st : LoadState) (line key val : cstr) :
  within_caps (ls_cfg st) ->
  ls_section st = str "apps" ->
  (app_count (ls_cfg st) < MAX_CFG_APPS)%Z ->
  is_comment line = false ->
  is_section_line line = false ->
  scan_key_val (trim line) = Some (key, val) ->
  config_find_app (ls_cfg st) (trim key) = None ->
  config_find_app (ls_cfg (config_line st line)) (trim key)
  = Some (app_rule_of (trim key) (trim val)).
Proof.
  intros (Hc & _ & Hlen & _) Hsec Hroom Hcom Hhead Hkv Hnone.
  assert (Hline : config_line st line
                  = mkLoadState
                      (push_app (ls_cfg st)
                                (app_rule_of (trim key) (trim val)))
                      (ls_section st)).
  { unfold config_line, is_comment, is_section_line in *.
    destruct (trim line) as [|c s]; [discriminate|].
    rewrite Hcom, Hhead, Hkv, Hsec.
    change (streq (str "apps") (str "general")) with false.
    rewrite streq_refl.
    apply Z.ltb_lt in Hroom. rewrite Hroom. reflexivity. }
  rewrite Hline. unfold config_find_app in *. cbn [ls_cfg push_app app_count].
  replace (Z.to_nat (app_count (ls_cfg st) + 1))
    with (S (Z.to_nat (app_count (ls_cfg st)))) by lia.
  apply find_app_from_snoc.
  - rewrite (find_app_from_insert (ls_cfg st) (push_app _ _) _
               (Z.to_nat (app_count (ls_cfg st))) _ _ eq_refl) by lia.
    assumption.
  - cbn [apps push_app]. apply list_lookup_insert_eq.
    unfold MAX_CFG_APPS in *. lia.
  - rewrite app_rule_of_name. apply take_ge.
    pose proof (scan_key_val_key_length _ _ _ Hkv).
    pose proof (trim_length key). lia.
Qed.

Lemma stored_rule_is_found_witness :
  config_find_app
    (ls_cfg (config_line (load_lines config_init [str "[apps]"])
                         (str " firefox = allow:1 , delay:500 ")))
    (trim (str " firefox "))
  = Some (app_rule_of (trim (str " firefox "))
                      (trim (str " allow:1 , delay:500"))).
Proof.
  apply (stored_rule_is_found (load_lines config_init [str "[apps]"])
           (str " firefox = allow:1 , delay:500 ")
           (str "firefox ") (str " allow:1 , delay:500")).
  - repeat split; vm_compute; (reflexivity || discriminate).
  - reflexivity.
  - reflexivity.
  - reflexivity.
  - reflexivity.
  - reflexivity.
  - vm_compute. reflexivity.
Defined.

End PolicyRoundTrip.

(** ** What the policy loader keeps and what it ignores *)

Section PolicyInvariants.
Import Libc Util Config Props.

Lemma config_line_names_fit (st : LoadState) (line : cstr) :
  names_fit (ls_cfg st) -> names_fit (ls_cfg (config_line st line)).
Proof.
  intros [Ha Hd].
  destruct (config_line_cases st line)
    as [E|[(_ & sec & E)|[(_ & v & E)|[(_ & v & E)|
        [(key & val & Hkv & _ & _ & E)|(key & val & Hkv & _ & _ & E)]]]]];
    rewrite E; cbn [ls_cfg]; try (split; assumption).
  - split; [|assumption]. cbn [apps push_app].
    apply Forall_insert; [assumption|].
    rewrite app_rule_of_name, length_take. lia.
  - split; [assumption|]. cbn [dirs push_dir].
    apply Forall_insert; [assumption|].
    unfold dir_rule_of, strncpy. cbn [dir_path]. rewrite length_take.
    pose proof (scan_key_val_key_length _ _ _ Hkv).
    pose proof (trim_length key). lia.
Qed.

(** X10. Whatever the policy file holds, every name and every path the
    loader leaves in the configuration is at most 255 characters long: the
    name buffer of 256 bytes always holds its terminator, and a path is
    never cut. *)
Theorem stored_names_fit (data : list ascii) :
  names_fit (fst (config_load config_init (Some data))).
Proof.
  simpl. unfold load_lines.
  assert (H : forall lines st,
             names_fit (ls_cfg st) ->
             names_fit (ls_cfg (fold_left config_line lines st))).
  { induction lines as [|l lines IH]; intros st Hst; simpl; [assumption|].
    apply IH, config_line_names_fit, Hst. }
  apply H. split; apply Forall_replicate; simpl; lia.
Qed.

Lemma config_line_comment (st : LoadState) (line : cstr) :
  is_comment line = true -> config_line st line = st.
Proof.
  unfold is_comment, config_line.
  destruct (trim line) as [|c s]; [reflexivity|]. intros ->. reflexivity.
Qed.

Lemma scan_section_cases (s sec : cstr) :
  scan_section s sec = sec \/ scan_section s sec = scan_section s [].
Proof.
  unfold scan_section. destruct s as [|c s]; [left; reflexivity|].
  destruct c as [[] [] [] [] [] [] [] []]; try (left; reflexivity).
  destruct (scanset 63 _ s) as [[nm r]|]; [right | left]; reflexivity.
Qed.

Lemma config_line_outside_general (st : LoadState) (line : cstr) :
  ls_section st <> str "general" ->
  opens_general line = false ->
  ls_section (config_line st line) <> str "general"
  /\ startup_delay_ms (ls_cfg (config_line st line))
     = startup_delay_ms (ls_cfg st)
  /\ delay_ms (ls_cfg (config_line st line)) = delay_ms (ls_cfg st).
Proof.
  intros Hsec Hopen.
  destruct (config_line_cases st line)
    as [E|[(Hhead & sec & E)|[(Hg & _)|[(Hg & _)|
        [(key & val & _ & _ & _ & E)|(key & val & _ & _ & _ & E)]]]]];
    try contradiction; try (rewrite E; cbn; auto; fail).
  assert (Esec : ls_section (config_line st line)
                 = scan_section (trim line) (ls_section st)).
  { unfold config_line, is_section_line in *.
    destruct (trim line) as [|c s]; [discriminate|].
    apply Ascii.eqb_eq in Hhead. subst c. reflexivity. }
  rewrite E in *. cbn [ls_cfg ls_section] in *.
  split; [|auto]. rewrite Esec.
  destruct (scan_section_cases (trim line) (ls_section st)) as [-> | ->];
    [assumption|].
  unfold opens_general in Hopen. rewrite Hhead in Hopen.
  apply streq_false, Hopen.
Qed.

End PolicyInvariants.

(** ** What the entry parser keeps and what it ignores *)

Section EntryInvariants.
Import Libc Util Config Autostart Props.

Lemma is_flag_bool (b : bool) : is_flag (bool_to_int b).
Proof. destruct b; [right | left]; reflexivity. Qed.

Lemma desktop_line_fits (st : ParseState) (line : cstr) :
  entry_fits (ps_entry st) ->
  match desktop_line st line with
  | inl st' => entry_fits (ps_entry st')
  | inr e => entry_fits e
  end.
Proof.
  intros Hfit. pose proof Hfit as (Hn & He & Ht & Hi & Hp & Hft & Hfh & Hfn).
  unfold desktop_line. destruct (trim line) as [|c s]; [assumption|].
  destruct (strchr (c :: s) "=") as [[pre post]|];
    repeat case_if; try assumption;
    unfold entry_fits, strncpy; cbn;
    repeat split;
    try assumption; try (rewrite length_take; lia); apply is_flag_bool.
Qed.

Lemma parse_loop_fits (lines : list cstr) :
  forall st,
    entry_fits (ps_entry st) ->
    match parse_loop st lines with
    | inl st' => entry_fits (ps_entry st')
    | inr e => entry_fits e
    end.
Proof.
  induction lines as [|l lines IH]; intros st Hfit; simpl; [assumption|].
  pose proof (desktop_line_fits st l Hfit) as Hl.
  destruct (desktop_line st l) as [st'|e]; [apply IH, Hl | exact Hl].
Qed.

(** The value returned is the entry's [valid], and a valid entry has a
    name and a command. *)
Lemma parse_lines_valid (lines : list cstr) :
  let e := fst (parse_lines lines) in
  snd (parse_lines lines) = valid e
  /\ (valid e = 0%Z \/ (valid e = 1%Z /\ name e <> [] /\ exec e <> [])).
Proof.
  unfold parse_lines. fold fresh.
  destruct (parse_loop fresh lines) as [st|e] eqn:Hloop.
  - destruct (parse_loop_end _ _ _ Hloop) as (_ & Hvalid & _).
    unfold validate.
    destruct (type_is_application st
              && (0 <? length (name (ps_entry st)))%nat
              && (0 <? length (exec (ps_entry st)))%nat) eqn:Hcond;
      cbn [fst snd].
    + split; [reflexivity|]. right.
      apply andb_true_iff in Hcond as [[_ Hn]%andb_true_iff He].
      apply Nat.ltb_lt in Hn, He.
      repeat split; try reflexivity.
      * cbn. intros E. rewrite E in Hn. simpl in Hn. lia.
      * cbn. intros E. rewrite E in He. simpl in He. lia.
    + split; [reflexivity|]. left. exact Hvalid.
  - cbn [fst snd]. rewrite (parse_loop_return _ _ _ Hloop). simpl. auto.
Qed.

(** X13. Whatever the lines of the file, the entry the parser fills has
    strings that fit their buffers (name, TryExec and icon at most 255
    characters, command and path at most 1023) and flags that are 0 or 1;
    the value returned is the entry's [valid] field; and the entry is valid
    only with a name and a command that are not empty. *)
Theorem parsed_entry_fits (lines : list cstr) :
  let e := fst (parse_lines lines) in
  entry_fits e
  /\ snd (parse_lines lines) = valid e
  /\ (valid e = 0%Z \/ (valid e = 1%Z /\ name e <> [] /\ exec e <> [])).
Proof.
  split; [|apply parse_lines_valid].
  unfold parse_lines.
  assert (Hzero : entry_fits zero_entry).
  { unfold entry_fits, is_flag; simpl. repeat split; auto; lia. }
  pose proof (parse_loop_fits lines fresh Hzero) as Hfit.
  fold fresh. destruct (parse_loop fresh lines) as [st|e0] eqn:Hloop.
  - unfold validate. case_if; exact Hfit.
  - exact Hfit.
Qed.

Lemma desktop_line_comment (st : ParseState) (line : cstr) :
  is_comment line = true -> desktop_line st line = inl st.
Proof.
  unfold is_comment, desktop_line.
  destruct (trim line) as [|c s]; [reflexivity|]. intros ->. reflexivity.
Qed.

(** X15. White space before and after a line, such as indentation or the
    carriage return of a DOS line ending, is cut by [trim] and makes no
    difference to either parser. *)
Theorem line_padding_is_ignored (ws1 line ws2 : cstr) :
  all_space ws1 -> all_space ws2 ->
  trim (ws1 ++ line ++ ws2) = trim line
  /\ (forall st, desktop_line st (ws1 ++ line ++ ws2) = desktop_line st line)
  /\ (forall st, config_line st (ws1 ++ line ++ ws2) = config_line st line).
Proof.
  intros H1 H2. pose proof (trim_pad ws1 line ws2 H1 H2) as E.
  split; [exact E|]. split; intros st.
  - unfold desktop_line. rewrite E. reflexivity.
  - unfold config_line. rewrite E. reflexivity.
Qed.

Lemma line_padding_is_ignored_witness :
  trim (str "  " ++ str "Hidden=true" ++ ["013"%char; newline])
  = trim (str "Hidden=true")
  /\ (forall st,
      desktop_line st (str "  " ++ str "Hidden=true"
                       ++ ["013"%char; newline])
      = desktop_line st (str "Hidden=true"))
  /\ (forall st,
         config_line st (str "  " ++ str "Hidden=true"
                         ++ ["013"%char; newline])
         = config_line st (str "Hidden=true")).
Proof.
  apply line_padding_is_ignored; repeat constructor.
Defined.

End EntryInvariants.

(** ** The scan of a directory *)

Section ScanFacts.
Import Libc Util Config Autostart Props.

Lemma strrchr_suffix (s r : cstr) (c : ascii) :
  strrchr s c = Some r -> exists pre, s = pre ++ r.
Proof.
  revert r; induction s as [|x s IH]; intros r; simpl; [discriminate|].
  destruct (strrchr s c) as [r0|].
  - intros [= <-]. destruct (IH r0 eq_refl) as [pre E].
    exists (x :: pre). rewrite E at 1. reflexivity.
  - destruct (Ascii.eqb x c); [|discriminate].
    intros [= <-]. exists []. reflexivity.
Qed.




Lemma scan_entry_adds (env : Env) (cfg : Config) (dir : cstr)
      (st : ScanState) (d_name : cstr) :
  queued (scan_entry env cfg dir st d_name) = queued st
  /\ exists added,
      q_apps (sc_queue (scan_entry env cfg dir st d_name))
      = q_apps (sc_queue st) ++ added
      /\ Forall (fun e => admitted env cfg e
                          /\ comes_from env dir [d_name] e) added.
Proof.
  unfold scan_entry.
  destruct (strrchr d_name ".") as [ext|] eqn:Hext;
    [|split; [reflexivity|];
      exists []; rewrite app_nil_r; split; [reflexivity | constructor]].
  destruct (streq ext (str ".desktop")) eqn:Hd; cbn [negb];
    [|split; [reflexivity|];
      exists []; rewrite app_nil_r; split; [reflexivity | constructor]].
  apply streq_true in Hd. subst ext.
  destruct (strrchr_suffix _ _ _ Hext) as [base Hbase].
  unfold parse_desktop_file.
  destruct (fopen env _) as [data|] eqn:Hopen.
  2:{ cbn. split; [reflexivity|].
      exists []. rewrite app_nil_r. split; [reflexivity | constructor]. }
  destruct (parse_lines (fgets_lines MAX_LINE data)) as [de r] eqn:Hparse.
  pose proof (parse_lines_valid (fgets_lines MAX_LINE data)) as (Hr & _).
  rewrite Hparse in Hr. cbn [fst snd] in Hr.
  repeat case_if; cbn [queued sc_queue];
    (split; [reflexivity|]);
    try (exists []; rewrite app_nil_r; split; [reflexivity | constructor]).
  exists [de]. split; [reflexivity|].
  repeat match goal with
         | H : _ || _ = false |- _ => apply orb_false_iff in H as [? ?]
         | H : negb _ = false |- _ => apply negb_false_iff in H
         | H : (_ =? _)%Z = true |- _ => apply Z.eqb_eq in H
         | H : (_ =? _)%Z = false |- _ => apply Z.eqb_neq in H
         end.
  constructor; [|constructor]. split; [unfold admitted; auto|].
  exists d_name, base, data. split; [left; reflexivity|].
  split; [assumption|]. split; [assumption|].
  rewrite Hparse. f_equal.
  pose proof (parse_lines_valid (fgets_lines MAX_LINE data))
    as (_ & Hv).
  rewrite Hparse in Hv. cbn [fst] in Hv.
  destruct Hv as [Hv|(Hv & _)]; congruence.
Qed.

Lemma comes_from_mono (env : Env) (dir : cstr) (a b : list cstr)
      (e : DesktopEntry) :
  (forall d, In d a -> In d b) ->
  comes_from env dir a e -> comes_from env dir b e.
Proof.
  intros Hsub (d & base & data & Hin & H). exists d, base, data.
  split; [apply Hsub, Hin | exact H].
Qed.

Lemma fold_scan_entry_adds (env : Env) (cfg : Config) (dir : cstr)
      (names : list cstr) :
  forall st,
    queued (fold_left (scan_entry env cfg dir) names st) = queued st
    /\ exists added,
        q_apps (sc_queue (fold_left (scan_entry env cfg dir) names st))
        = q_apps (sc_queue st) ++ added
        /\ Forall (fun e => admitted env cfg e
                            /\ comes_from env dir names e) added.
Proof.
  induction names as [|d names IH]; intros st; simpl.
  - split; [reflexivity|]. exists []. rewrite app_nil_r.
    split; [reflexivity | constructor].
  - destruct (IH (scan_entry env cfg dir st d)) as (Q2 & added2 & E2 & F2).
    destruct (scan_entry_adds env cfg dir st d) as (Q1 & added1 & E1 & F1).
    split; [congruence|].
    exists (added1 ++ added2). rewrite E2, E1, app_assoc.
    split; [reflexivity|]. apply Forall_app. split.
    + eapply Forall_impl; [exact F1|]. intros e [Ha Hc].
      split; [assumption|].
      eapply comes_from_mono; [|exact Hc].
      intros d0 [<-|[]]. left; reflexivity.
    + eapply Forall_impl; [exact F2|]. intros e [Ha Hc].
      split; [assumption|].
      eapply comes_from_mono; [|exact Hc].
      intros d0 Hd0. right; assumption.
Qed.

(** X17. A scan only appends to the queue, and what it appends are entries
    the parser made, returning 1, of [.desktop] files of the directory, each
    valid, neither hidden nor undisplayed (whatever the policy says), not
    denied by a rule and passing the TryExec probe.  A directory that
    cannot be opened leaves the queue as it is. *)
Theorem scan_queues_only_launchable (env : Env) (cfg : Config) (dir : cstr)
        (idx : Z) (q : AppQueue) (w : World) :
  exists added,
    q_apps (snd (fst (scan_autostart_dir env cfg dir idx q w)))
    = q_apps q ++ added
    /\ match opendir env dir with
       | Some names =>
           Forall (fun e => admitted env cfg e
                            /\ comes_from env dir names e) added
       | None => added = []
       end.
Proof.
  unfold scan_autostart_dir. destruct (opendir env dir) as [names|]; simpl.
  - destruct (fold_scan_entry_adds env cfg dir names
                (mkScan q (emit w (Scanning (idx + 1) dir)) 0 0))
      as (_ & added & E & F).
    exists added. split; assumption.
  - exists []. rewrite app_nil_r. split; reflexivity.
Qed.

(** X18. The value [scan_autostart_dir] returns, and prints in its summary
    as the number queued, is 0 whatever it has queued: the counter is never
    incremented. *)
Theorem scan_returns_zero (env : Env) (cfg : Config) (dir : cstr)
        (idx : Z) (q : AppQueue) (w : World) :
  fst (fst (scan_autostart_dir env cfg dir idx q w)) = 0%Z
  /\ match opendir env dir with
     | Some _ =>
         exists total,
           last (out (snd (scan_autostart_dir env cfg dir idx q w)))
           = Some (ScanSummary dir total 0)
     | None => True
     end.
Proof.
  unfold scan_autostart_dir. destruct (opendir env dir) as [names|].
  - destruct (fold_scan_entry_adds env cfg dir names
                (mkScan q (emit w (Scanning (idx + 1) dir)) 0 0))
      as (Hq & _).
    cbn [fst snd queued] in *. split; [assumption|].
    eexists. cbn [emit out]. rewrite last_snoc, Hq. reflexivity.
  - split; [reflexivity | exact I].
Qed.

End ScanFacts.

(** ** The queue and the launches *)

Section LaunchFacts.
Import Libc Util Config Autostart Props.

Lemma app_queue_add_keeps (q : AppQueue) (e : DesktopEntry) :
  count q <= capacity q ->
  (capacity q = 5 \/ capacity q < 2 * count q) ->
  0 < capacity q ->
  count (app_queue_add q e) <= capacity (app_queue_add q e)
  /\ (capacity (app_queue_add q e) = 5
      \/ capacity (app_queue_add q e) < 2 * count (app_queue_add q e))
  /\ 0 < capacity (app_queue_add q e).
Proof.
  unfold app_queue_add, count. cbn [q_apps capacity].
  rewrite length_app. simpl length. intros H1 H2 H3.
  destruct (Nat.eqb_spec (length (q_apps q)) (capacity q)); lia.
Qed.

(** X19. Starting from [app_queue_init], after any number of
    [app_queue_add] the queue holds the entries added, in the order they
    were added; the slots in use never exceed the capacity, so every store
    goes into the allocation; and the capacity is the initial 5 or less
    than twice the number of entries. *)
Theorem queue_grows_by_doubling (entries : list DesktopEntry) :
  let q := fold_left app_queue_add entries app_queue_init in
  q_apps q = entries
  /\ count q <= capacity q
  /\ (capacity q = 5 \/ capacity q < 2 * count q).
Proof.
  assert (H : forall q,
             count q <= capacity q ->
             (capacity q = 5 \/ capacity q < 2 * count q) ->
             0 < capacity q ->
             let q' := fold_left app_queue_add entries q in
             q_apps q' = q_apps q ++ entries
             /\ count q' <= capacity q'
             /\ (capacity q' = 5 \/ capacity q' < 2 * count q')).
  { induction entries as [|e entries IH]; intros q H1 H2 H3; simpl.
    - rewrite app_nil_r. auto.
    - destruct (app_queue_add_keeps q e H1 H2 H3) as (K1 & K2 & K3).
      destruct (IH _ K1 K2 K3) as (E & L1 & L2).
      split; [|split; assumption].
      rewrite E. unfold app_queue_add. cbn [q_apps].
      rewrite <- app_assoc. reflexivity. }
  apply (H app_queue_init); cbn; lia.
Qed.

(** X20. [run_command] always returns.  It returns 1 exactly when the
    command is not empty and [fork] succeeds; the child then runs the first
    2047 characters of the command with the placeholders removed, a command
    that holds no [%].  For an empty command it returns 0 without calling
    [fork]; when [fork] fails it returns 0 and starts nothing. *)
Theorem run_command_outcome (env : Env) (cmd dir : cstr) (w : World) :
  exists r w',
    run_command env cmd dir w = Some (r, w')
    /\ ((r = 1%Z /\ cmd <> [] /\ fork env (forks w) <> None
         /\ forks w' = S (forks w)
         /\ out w'
            = out w
              ++ [Spawn (sanitize (cstring (take (MAX_PATH - 1) cmd))) dir]
         /\ Forall (fun c => c <> percent)
                   (sanitize (cstring (take (MAX_PATH - 1) cmd))))
        \/ (r = 0%Z /\ out w' = out w
            /\ ((cmd = [] /\ forks w' = forks w)
                \/ (cmd <> [] /\ fork env (forks w) = None
                    /\ forks w' = S (forks w))))).
Proof.
  rewrite run_command_spec. destruct cmd as [|c cmd]; cbn [length Nat.eqb].
  - exists 0%Z, w. split; [reflexivity|]. right. auto.
  - destruct (fork env (forks w)) as [pid|] eqn:Hfork.
    + eexists _, _. split; [reflexivity|]. left.
      repeat split; try discriminate; try reflexivity.
      apply sanitize_no_percent.
    + eexists _, _. split; [reflexivity|]. right.
      repeat split. right. repeat split. discriminate.
Qed.

Lemma sleeps_app (a b : list Event) : sleeps (a ++ b) = sleeps a ++ sleeps b.
Proof.
  induction a as [|e a IH]; simpl; [reflexivity|].
  destruct e; simpl; rewrite IH; reflexivity.
Qed.

(** The loop always reaches the end of the queue; it sleeps once before
    each entry and forks once for each command that is not empty. *)
Lemma launch_loop_sleeps (env : Env) (cfg : Config) (total : Z)
      (rest : list DesktopEntry) :
  forall (i sc : Z) (w : World),
    (0 < i)%Z ->
    exists sc' w',
      launch_loop env cfg total i rest sc w = Some (sc', w')
      /\ sleeps (out w')
         = sleeps (out w)
           ++ map (fun _ => timespec_of (delay_ms cfg)) rest
      /\ forks w' = forks w + commands rest.
Proof.
  induction rest as [|e rest IH]; intros i sc w Hi.
  - exists sc, w. simpl. rewrite app_nil_r. split; [reflexivity|].
    split; [reflexivity | lia].
  - cbn [launch_loop]. rewrite run_command_spec.
    unfold launch_delay. destruct (Z.eqb_spec i 0) as [|_]; [lia|].
    cbn [emit out forks commands map].
    destruct (Nat.eqb (length (exec e)) 0);
      [|destruct (fork env (forks w))];
      cbn [mbind option_bind];
      match goal with
      | |- context [launch_loop env cfg total (i + 1) rest ?s ?w0] =>
          destruct (IH (i + 1)%Z s w0 ltac:(lia)) as (sc' & w' & -> & Hs & Hf)
      end;
      exists sc', w'; (split; [reflexivity|]);
      rewrite Hs, Hf; cbn [emit out forks];
      rewrite !sleeps_app; cbn [sleeps];
      rewrite ?app_nil_r, <- ?app_assoc; (split; [reflexivity | lia]).
Qed.

(** X21. [launch_queued_apps] always returns.  It sleeps once before each
    entry of the queue: for the start-up delay before the first one and for
    the global delay before each of the others; and it calls [fork] once for
    each entry whose command is not empty. *)
Theorem launch_sleeps_before_each_entry (env : Env) (cfg : Config)
        (q : AppQueue) (w : World) :
  exists w',
    launch_queued_apps env cfg q w = Some w'
    /\ sleeps (out w')
       = sleeps (out w)
         ++ match q_apps q with
            | [] => []
            | _ :: others =>
                timespec_of (startup_delay_ms cfg)
                :: map (fun _ => timespec_of (delay_ms cfg)) others
            end
    /\ forks w' = forks w + commands (q_apps q).
Proof.
  unfold launch_queued_apps, count. destruct (q_apps q) as [|e rest].
  - exists (emit w NoApps). simpl. rewrite sleeps_app, !app_nil_r.
    split; [reflexivity|]. split; [reflexivity | lia].
  - destruct (Z.eqb_spec (Z.of_nat (length (e :: rest))) 0) as [H0|_];
      [simpl in H0; lia|].
    cbn [launch_loop]. rewrite run_command_spec.
    unfold launch_delay at 1 2. cbn [Z.eqb emit out forks commands].
    destruct (Nat.eqb (length (exec e)) 0);
      [|destruct (fork env (forks w))];
      cbn [mbind option_bind];
      match goal with
      | |- context [launch_loop env cfg ?t (0 + 1) rest ?s ?w0] =>
          destruct (launch_loop_sleeps env cfg t rest (0 + 1)%Z s w0
                      ltac:(lia))
            as (sc' & w' & -> & Hs & Hf)
      end;
      cbn [mbind option_bind]; eexists; (split; [reflexivity|]);
      cbn [emit out forks]; rewrite sleeps_app, Hs, Hf;
      cbn [emit out forks]; rewrite !sleeps_app; cbn [sleeps];
      rewrite ?app_nil_r, <- ?app_assoc; (split; [reflexivity | lia]).
Qed.

End LaunchFacts.

(** ** The whole run *)

Section WholeRun.
Import Libc Util Config Autostart Props.

Lemma scan_entry_reports (env : Env) (cfg : Config) (dir : cstr)
      (st : ScanState) (d_name : cstr) :
  launch_reports (out (sc_world (scan_entry env cfg dir st d_name)))
  = launch_reports (out (sc_world st)).
Proof.
  unfold scan_entry. destruct (strrchr d_name ".") as [ext|]; [|reflexivity].
  destruct (negb (streq ext (str ".desktop"))); [reflexivity|].
  unfold parse_desktop_file.
  destruct (fopen env _) as [data|];
    [destruct (parse_lines (fgets_lines MAX_LINE data)) as [de r]|];
    repeat case_if; cbn [sc_world emit out];
    rewrite ?launch_reports_app; cbn [launch_reports];
    rewrite ?app_nil_r; reflexivity.
Qed.

Lemma scan_dir_adds (env : Env) (cfg : Config) (dir : cstr) (idx : Z)
      (q : AppQueue) (w : World) :
  exists added,
    q_apps (snd (fst (scan_autostart_dir env cfg dir idx q w)))
    = q_apps q ++ added
    /\ scanned_from env cfg dir added
    /\ launch_reports (out (snd (scan_autostart_dir env cfg dir idx q w)))
       = launch_reports (out w).
Proof.
  unfold scan_autostart_dir, scanned_from.
  destruct (opendir env dir) as [names|]; cbn [fst snd].
  - destruct (fold_scan_entry_adds env cfg dir names
                (mkScan q (emit w (Scanning (idx + 1) dir)) 0 0))
      as (_ & added & E & F).
    exists added. split; [assumption|]. split; [assumption|].
    cbn [emit out]. rewrite launch_reports_app. cbn [launch_reports].
    rewrite app_nil_r.
    assert (H : forall l st,
               launch_reports
                 (out (sc_world (fold_left (scan_entry env cfg dir) l st)))
               = launch_reports (out (sc_world st))).
    { induction l as [|d l IH]; intros st; simpl; [reflexivity|].
      rewrite IH. apply scan_entry_reports. }
    rewrite H. cbn [sc_world emit out]. rewrite launch_reports_app.
    cbn [launch_reports]. rewrite app_nil_r. reflexivity.
  - exists []. rewrite app_nil_r. split; [reflexivity|].
    split; [reflexivity|]. cbn [emit out]. rewrite launch_reports_app.
    cbn [launch_reports]. rewrite app_nil_r. reflexivity.
Qed.

(** The loop reports every entry it is given, in order, whatever the
    launches do. *)
Lemma launch_loop_names (env : Env) (cfg : Config) (total : Z)
      (rest : list DesktopEntry) :
  forall (i sc : Z) (w : World),
    exists sc' w',
      launch_loop env cfg total i rest sc w = Some (sc', w')
      /\ map (fun r => snd r) (launch_reports (out w'))
         = map (fun r => snd r) (launch_reports (out w)) ++ map name rest.
Proof.
  induction rest as [|e rest IH]; intros i sc w.
  - exists sc, w. simpl. rewrite app_nil_r. auto.
  - cbn [launch_loop]. rewrite run_command_spec.
    destruct (Nat.eqb (length (exec e)) 0);
      [|destruct (fork env _)];
      cbn [mbind option_bind];
      match goal with
      | |- context [launch_loop env cfg total (i + 1) rest ?s ?w0] =>
          destruct (IH (i + 1)%Z s w0) as (sc' & w' & -> & Hn)
      end;
      exists sc', w'; (split; [reflexivity|]);
      rewrite Hn; cbn [emit out];
      rewrite !launch_reports_app; cbn [launch_reports];
      rewrite ?app_nil_r, !map_app; cbn [map snd];
      rewrite <- ?app_assoc; reflexivity.
Qed.

Lemma launch_names (env : Env) (cfg : Config) (q : AppQueue) (w : World) :
  exists w',
    launch_queued_apps env cfg q w = Some w'
    /\ map (fun r => snd r) (launch_reports (out w'))
       = map (fun r => snd r) (launch_reports (out w)) ++ map name (q_apps q).
Proof.
  unfold launch_queued_apps.
  destruct (Z.eqb_spec (Z.of_nat (count q)) 0) as [H0|_].
  - exists (emit w NoApps). split; [reflexivity|].
    assert (Hnil : q_apps q = []).
    { unfold count in H0. destruct (q_apps q); [reflexivity|].
      simpl in H0. lia. }
    rewrite Hnil. cbn [emit out]. rewrite launch_reports_app. simpl.
    rewrite !app_nil_r. reflexivity.
  - destruct (launch_loop_names env cfg (Z.of_nat (count q)) (q_apps q) 0 0
                (emit w (LaunchHeader (Z.of_nat (count q)) DELAY_MS)))
      as (sc' & w' & -> & Hn).
    cbn [mbind option_bind]. eexists. split; [reflexivity|].
    cbn [emit out] in *. rewrite launch_reports_app, map_app, Hn.
    rewrite launch_reports_app. simpl. rewrite !app_nil_r. reflexivity.
Qed.

Lemma scan_dirs_adds (env : Env) (cfg : Config) (dirs : list cstr) :
  forall (i : Z) (q : AppQueue) (w : World),
    exists parts,
      Forall2 (scanned_from env cfg) dirs parts
      /\ q_apps (fst (scan_dirs env cfg dirs i q w))
         = q_apps q ++ concat parts
      /\ launch_reports (out (snd (scan_dirs env cfg dirs i q w)))
         = launch_reports (out w).
Proof.
  induction dirs as [|dir dirs IH]; intros i q w.
  - exists []. simpl. rewrite app_nil_r. split; [constructor | auto].
  - cbn [scan_dirs].
    destruct (scan_dir_adds env cfg dir i q w) as (a & E & S & R).
    destruct (scan_autostart_dir env cfg dir i q w) as [[r q1] w1].
    cbn [fst snd] in *.
    destruct (IH (i + 1)%Z q1 w1) as (parts & F & E' & R').
    exists (a :: parts). split; [constructor; assumption|].
    rewrite E', E, R', R. cbn [concat]. rewrite app_assoc. auto.
Qed.

(** X22. The scans and the launches of [main], for whatever directories
    its array holds: each directory adds to the queue, in the order of the
    array, entries that passed every gate of its scan and nothing else;
    [launch_queued_apps] then returns, and it reports one launch for each
    entry of the queue, in queue order, and for nothing else. *)
Theorem launch_follows_the_scans (env : Env) (cfg : Config)
        (dirs : list cstr) (q : AppQueue) (w : World) :
  exists parts w',
    Forall2 (scanned_from env cfg) dirs parts
    /\ q_apps (fst (scan_dirs env cfg dirs 0 q w)) = q_apps q ++ concat parts
    /\ launch_queued_apps env cfg (fst (scan_dirs env cfg dirs 0 q w))
                          (snd (scan_dirs env cfg dirs 0 q w))
       = Some w'
    /\ map (fun r => snd r) (launch_reports (out w'))
       = map (fun r => snd r) (launch_reports (out w))
         ++ map name (q_apps q ++ concat parts).
Proof.
  destruct (scan_dirs_adds env cfg dirs 0 q w) as (parts & F & E & R).
  destruct (launch_names env cfg (fst (scan_dirs env cfg dirs 0 q w))
                         (snd (scan_dirs env cfg dirs 0 q w)))
    as (w' & Hrun & Hn).
  exists parts, w'. split; [assumption|]. split; [assumption|].
  split; [assumption|]. rewrite Hn, R, E. reflexivity.
Qed.













End WholeRun.

(** ** Files, lines and the buffers of [fgets] *)

Section Files.
Import Libc Util Config Autostart Props.

Lemma fields_nonempty (d : ascii) (s : cstr) : fields d s <> [].
Proof.
  destruct s as [|c s]; simpl; [discriminate|].
  destruct (Ascii.eqb c d); [discriminate|].
  destruct (fields d s); discriminate.
Qed.

(** The first line of a file holds no newline, and the file is that line
    alone or that line, a newline and a file with the other lines. *)
Lemma fields_inv (d : ascii) (s : cstr) :
  forall p rest,
    fields d s = p :: rest ->
    Forall (fun c => c <> d) p
    /\ ((rest = [] /\ s = p)
        \/ exists s', s = p ++ d :: s' /\ fields d s' = rest).
Proof.
  induction s as [|c s IH]; intros p rest; simpl.
  - intros [= <- <-]. split; [constructor | left; auto].
  - destruct (Ascii.eqb_spec c d) as [->|Hc].
    + intros [= <- <-]. split; [constructor|]. right. exists s. auto.
    + destruct (fields d s) as [|f fs] eqn:E.
      { exfalso. exact (fields_nonempty d s E). }
      intros [= <- <-]. destruct (IH f fs eq_refl) as [Hf Hs].
      split; [constructor; assumption|].
      destruct Hs as [[-> ->]|(s' & -> & Hs')]; [left; auto|].
      right. exists s'. auto.
Qed.

(** [fgets] reads a line that fits in one call. *)
Lemma read_lines_line (width : nat) (l rest : list ascii) :
  Forall (fun c => c <> newline) l ->
  forall room,
    length l < room ->
    read_lines width room (l ++ newline :: rest)
    = (l ++ [newline]) :: read_lines width width rest.
Proof.
  induction 1 as [|c l Hc Hl IH]; intros room Hroom; simpl.
  - reflexivity.
  - destruct (Ascii.eqb_spec c newline) as [->|_]; [contradiction|].
    simpl in Hroom. destruct (Nat.leb_spec room 1) as [|_]; [lia|].
    cbn [orb]. rewrite IH by lia. reflexivity.
Qed.

(** A line that fills the buffer leaves its newline to the next call. *)
Lemma read_lines_full (width : nat) (l rest : list ascii) :
  Forall (fun c => c <> newline) l ->
  l <> [] ->
  forall room,
    length l = room ->
    read_lines width room (l ++ newline :: rest)
    = l :: [newline] :: read_lines width width rest.
Proof.
  induction 1 as [|c l Hc Hl IH]; intros Hne room Hroom; [contradiction|].
  simpl. destruct (Ascii.eqb_spec c newline) as [->|_]; [contradiction|].
  cbn [orb]. destruct l as [|c2 l].
  - simpl in Hroom. subst room. reflexivity.
  - simpl in Hroom. destruct (Nat.leb_spec room 1) as [|_]; [lia|].
    rewrite IH by (simpl; (discriminate || lia)). reflexivity.
Qed.

Lemma read_lines_last (width : nat) (l : list ascii) :
  Forall (fun c => c <> newline) l ->
  l <> [] ->
  forall room,
    length l <= room ->
    read_lines width room l = [l].
Proof.
  induction 1 as [|c l Hc Hl IH]; intros Hne room Hroom; [contradiction|].
  simpl. destruct (Ascii.eqb_spec c newline) as [->|_]; [contradiction|].
  cbn [orb]. destruct l as [|c2 l].
  - simpl. destruct (Nat.leb room 1); reflexivity.
  - simpl in Hroom. destruct (Nat.leb_spec room 1) as [|_]; [lia|].
    rewrite IH by (simpl; (discriminate || lia)). reflexivity.
Qed.

(** The newline that ends a buffer is white space behind the string. *)
Lemma cstring_newline (l : list ascii) :
  exists ws, all_space ws /\ cstring (l ++ [newline]) = cstring l ++ ws.
Proof.
  induction l as [|c l (ws & Hws & E)]; simpl.
  - exists [newline]. split; [repeat constructor | reflexivity].
  - destruct (is_nul c).
    + exists []. split; [constructor | reflexivity].
    + exists ws. split; [assumption|]. rewrite E. reflexivity.
Qed.

Lemma trim_cstring_newline (l : list ascii) :
  trim (cstring (l ++ [newline])) = trim (cstring l).
Proof.
  destruct (cstring_newline l) as (ws & Hws & ->).
  apply (trim_pad [] (cstring l) ws); [constructor | assumption].
Qed.

Lemma solid_app (a b : list cstr) : solid (a ++ b) = solid a ++ solid b.
Proof. unfold solid. rewrite map_app. apply List.filter_app. Qed.

Lemma solid_cons (x : cstr) (l : list cstr) :
  solid (x :: l) = solid [x] ++ solid l.
Proof. apply (solid_app [x] l). Qed.

Lemma solid_one_trim (x y : cstr) : trim x = trim y -> solid [x] = solid [y].
Proof. unfold solid. simpl. intros ->. reflexivity. Qed.

(** While the lines fit, the buffers that [fgets] fills are the lines of
    the file, up to the newline that ends them. *)
Lemma fgets_lines_prefix (size : nat) (pre : list (list ascii)) :
  forall data post,
    fields newline data = pre ++ post ->
    forallb (fits size) pre = true ->
    exists rest,
      solid (fgets_lines size data)
      = solid (map cstring pre) ++ solid (fgets_lines size rest)
      /\ ((post = [] /\ rest = []) \/ fields newline rest = post).
Proof.
  induction pre as [|p pre IH]; intros data post Hfields Hfit.
  - exists data. split; [reflexivity | right; assumption].
  - simpl in Hfit. apply andb_true_iff in Hfit as [Hp Hfit].
    apply Nat.leb_le in Hp.
    destruct (fields_inv _ _ _ _ Hfields) as [Hnl [[Hrest ->]|(s' & -> & Hs')]].
    + apply app_eq_nil in Hrest as [-> ->].
      exists []. split; [|left; auto].
      unfold fgets_lines. destruct p as [|c p]; [reflexivity|].
      rewrite read_lines_last; [rewrite app_nil_r; reflexivity | assumption
                               | discriminate | lia].
    + destruct (IH s' post Hs' Hfit) as (rest & E & Hpost).
      exists rest. split; [|assumption].
      unfold fgets_lines in *.
      change (map cstring (p :: pre)) with (cstring p :: map cstring pre).
      rewrite (solid_cons (cstring p)), <- app_assoc.
      destruct (decide (length p < size - 1)) as [Hlt|Hfull].
      * rewrite read_lines_line by assumption.
        cbn [map]. rewrite solid_cons, E. f_equal.
        apply solid_one_trim, trim_cstring_newline.
      * destruct p as [|c p].
        { cbn [app read_lines].
          change (Ascii.eqb newline newline) with true. cbn [orb map].
          rewrite solid_cons, E. reflexivity. }
        rewrite read_lines_full by (assumption || discriminate || lia).
        cbn [map]. rewrite solid_cons, (solid_cons (cstring [newline])), E.
        reflexivity.
Qed.

Lemma fgets_lines_fit (size : nat) (data : list ascii) :
  lines_fit size data = true ->
  solid (fgets_lines size data) = solid (file_lines data).
Proof.
  intros Hfit.
  destruct (fgets_lines_prefix size (fields newline data) data []
              (eq_sym (app_nil_r _)) Hfit)
    as (rest & E & [[_ ->]|Hrest]).
  - rewrite E. unfold fgets_lines. simpl. rewrite app_nil_r. reflexivity.
  - exfalso. exact (fields_nonempty _ _ Hrest).
Qed.

Lemma trim_trim (s : cstr) : trim (trim s) = trim s.
Proof.
  unfold trim. destruct (skip_space s) as [|c r] eqn:Hskip; [reflexivity|].
  simpl. rewrite (skip_space_head _ _ _ Hskip), rstrip_idem. reflexivity.
Qed.

(** Both loops look at a line through [trim] and skip the empty ones. *)
Lemma parse_loop_solid (lines : list cstr) :
  forall st, parse_loop st (solid lines) = parse_loop st lines.
Proof.
  induction lines as [|x lines IH]; intros st; [reflexivity|].
  rewrite solid_cons. unfold solid at 1. cbn [map List.filter].
  assert (Hx : desktop_line st (trim x) = desktop_line st x).
  { unfold desktop_line. rewrite trim_trim. reflexivity. }
  destruct (trim x) as [|c s] eqn:Ht; cbn [length Nat.eqb negb app].
  - rewrite IH. cbn [parse_loop]. unfold desktop_line. rewrite Ht.
    reflexivity.
  - cbn [parse_loop]. rewrite Hx.
    destruct (desktop_line st x); [apply IH | reflexivity].
Qed.

Lemma load_solid (lines : list cstr) :
  forall st,
    fold_left config_line (solid lines) st = fold_left config_line lines st.
Proof.
  induction lines as [|x lines IH]; intros st; [reflexivity|].
  rewrite solid_cons, fold_left_app. unfold solid at 2.
  cbn [map List.filter].
  assert (Hx : config_line st (trim x) = config_line st x).
  { unfold config_line. rewrite trim_trim. reflexivity. }
  destruct (trim x) as [|c s] eqn:Ht; cbn [length Nat.eqb negb fold_left].
  - rewrite IH. f_equal. unfold config_line. rewrite Ht. reflexivity.
  - rewrite Hx. apply IH.
Qed.

(** The entry parser on a file whose first lines fit. *)
Lemma parse_file_prefix (size : nat) (data : list ascii)
      (pre post : list (list ascii)) (st : ParseState) :
  fields newline data = pre ++ post ->
  forallb (fits size) pre = true ->
  exists rest,
    parse_loop st (fgets_lines size data)
    = match parse_loop st (map cstring pre) with
      | inl st' => parse_loop st' (fgets_lines size rest)
      | inr e => inr e
      end.
Proof.
  intros Hfields Hfit.
  destruct (fgets_lines_prefix size pre data post Hfields Hfit)
    as (rest & E & _).
  exists rest. rewrite <- parse_loop_solid, E, <- solid_app, parse_loop_solid.
  apply parse_loop_app.
Qed.

Lemma parse_file_lines (size : nat) (data : list ascii) (st : ParseState) :
  lines_fit size data = true ->
  parse_loop st (fgets_lines size data) = parse_loop st (file_lines data).
Proof.
  intros Hfit.
  rewrite <- parse_loop_solid, (fgets_lines_fit _ _ Hfit).
  apply parse_loop_solid.
Qed.

(** The policy loader on a file whose first lines fit. *)
Lemma load_file_prefix (size : nat) (data : list ascii)
      (pre post : list (list ascii)) (st : LoadState) :
  fields newline data = pre ++ post ->
  forallb (fits size) pre = true ->
  exists rest,
    fold_left config_line (fgets_lines size data) st
    = fold_left config_line (fgets_lines size rest)
                (fold_left config_line (map cstring pre) st).
Proof.
  intros Hfields Hfit.
  destruct (fgets_lines_prefix size pre data post Hfields Hfit)
    as (rest & E & _).
  exists rest. rewrite <- load_solid, E, <- solid_app, load_solid.
  apply fold_left_app.
Qed.

Lemma load_file_lines (size : nat) (data : list ascii) (st : LoadState) :
  lines_fit size data = true ->
  fold_left config_line (fgets_lines size data) st
  = fold_left config_line (file_lines data) st.
Proof.
  intros Hfit.
  rewrite <- load_solid, (fgets_lines_fit _ _ Hfit).
  apply load_solid.
Qed.

End Files.

(** ** The entry parser on the lines of a file *)

Section EntryFile.
Import Libc Util Config Autostart Props.

Lemma section_after_names (line : cstr) :
  section_after false line = names_desktop_entry line.
Proof.
  unfold section_after, names_desktop_entry, is_section_line.
  destruct (trim line) as [|c s]; [reflexivity|].
  destruct (Ascii.eqb c "["); reflexivity.
Qed.

(** A line that gives [Type] another value, read inside the section, ends
    the loop: the lines after it make no difference. *)
Lemma parse_loop_type_gate (pre : list cstr) (line v : cstr) :
  section_open pre = true ->
  key_value line = Some (str "Type", v) ->
  v <> str "Application" ->
  exists e,
    valid e = 0%Z
    /\ forall post, parse_loop fresh (pre ++ line :: post) = inr e.
Proof.
  intros Hsec Hkv Hv.
  destruct (parse_loop fresh pre) as [st|e] eqn:Hpre.
  - exists (ps_entry st).
    destruct (parse_loop_end _ _ _ Hpre) as (Hin & Hvalid & _).
    split; [rewrite Hvalid; reflexivity|].
    intros post. rewrite parse_loop_app, Hpre. simpl.
    rewrite (desktop_line_type_gate st line v); auto.
    rewrite Hin. exact Hsec.
  - exists e. split; [rewrite (parse_loop_return _ _ _ Hpre); reflexivity|].
    intros post. rewrite parse_loop_app, Hpre. reflexivity.
Qed.

(** The loop ends early exactly when a line gives [Type] another value
    inside the section. *)
Lemma parse_loop_rejected (lines : list cstr) :
  forall st,
    type_rejected_from (in_desktop_entry st) lines
    = match parse_loop st lines with
      | inl _ => false
      | inr _ => true
      end.
Proof.
  induction lines as [|l lines IH]; intros st; [reflexivity|].
  cbn [type_rejected_from parse_loop].
  pose proof (desktop_line_spec st l) as Hl.
  destruct (desktop_line st l) as [st1|e] eqn:Hline.
  - destruct Hl as (Hsec & _). rewrite <- IH, Hsec.
    destruct (in_desktop_entry st) eqn:Hin; [|reflexivity].
    destruct (is_other_type l) eqn:Hother; [|reflexivity].
    exfalso. unfold is_other_type in Hother.
    destruct (key_value l) as [[k v]|] eqn:Hkv; [|discriminate].
    apply andb_true_iff in Hother as [Hk Hv].
    apply streq_true in Hk. subst k.
    apply negb_true_iff, streq_false in Hv.
    rewrite (desktop_line_type_gate st l v Hin Hkv Hv) in Hline.
    discriminate.
  - destruct Hl as (_ & -> & v & Hkv & Hv).
    unfold is_other_type. rewrite Hkv, streq_refl.
    apply streq_false in Hv. rewrite Hv. reflexivity.
Qed.

(** The name and the command a line leaves in the entry. *)
Lemma desktop_line_fields (st st1 : ParseState) (l : cstr) :
  desktop_line st l = inl st1 ->
  name (ps_entry st1)
  = match line_value (str "Name") (in_desktop_entry st) l with
    | Some v => take 255 v
    | None => name (ps_entry st)
    end
  /\ exec (ps_entry st1)
     = match line_value (str "Exec") (in_desktop_entry st) l with
       | Some v => take 1023 v
       | None => exec (ps_entry st)
       end.
Proof.
  unfold desktop_line, line_value, key_value.
  destruct (trim l) as [|c s] eqn:Ht.
  { intros [= <-]. simpl. auto. }
  pose proof (trim_head _ _ _ Ht) as Hc.
  assert (Hkey : forall pre, trim (c :: pre) = c :: rstrip pre).
  { intros pre. unfold trim. simpl. rewrite Hc. reflexivity. }
  destruct (Ascii.eqb_spec c "#") as [->|Hhash].
  { intros [= <-]. simpl.
    destruct (strchr s "=") as [[pre post]|]; [|auto].
    rewrite Hkey. simpl. rewrite !andb_false_r. auto. }
  destruct (Ascii.eqb_spec c "[") as [->|Hbr].
  { intros [= <-]. simpl.
    destruct (strchr s "=") as [[pre post]|]; [|auto].
    rewrite Hkey. simpl. rewrite !andb_false_r. auto. }
  destruct (in_desktop_entry st) eqn:Hin; cbn [negb andb].
  2:{ intros [= <-]. destruct (strchr (c :: s) "=") as [[pre post]|]; auto. }
  destruct (strchr (c :: s) "=") as [[pre post]|]; [|intros [= <-]; auto].
  destruct (streq (trim pre) (str "Type")) eqn:HT.
  { apply streq_true in HT. rewrite HT.
    destruct (negb _); [discriminate|]. intros [= <-]. simpl. auto. }
  destruct (streq (trim pre) (str "Name")) eqn:HN.
  { apply streq_true in HN. rewrite HN. intros [= <-]. simpl. auto. }
  destruct (streq (trim pre) (str "Exec")) eqn:HE.
  { intros [= <-]. simpl. auto. }
  repeat case_if; intros [= <-]; simpl; auto.
Qed.

(** The name and the command the entry holds at the end of the loop are
    those of the last lines that gave them. *)
Lemma parse_loop_fields (lines : list cstr) :
  forall st st',
    parse_loop st lines = inl st' ->
    name (ps_entry st')
    = match last_value (str "Name") (in_desktop_entry st) lines with
      | Some v => take 255 v
      | None => name (ps_entry st)
      end
    /\ exec (ps_entry st')
       = match last_value (str "Exec") (in_desktop_entry st) lines with
         | Some v => take 1023 v
         | None => exec (ps_entry st)
         end.
Proof.
  induction lines as [|l lines IH]; intros st st' H; simpl in H.
  - injection H as <-. simpl. auto.
  - pose proof (desktop_line_spec st l) as Hl.
    destruct (desktop_line st l) as [st1|e] eqn:Hline; [|discriminate].
    destruct Hl as (Hsec & _).
    destruct (desktop_line_fields _ _ _ Hline) as [Hn He].
    destruct (IH _ _ H) as [Hn' He'].
    cbn [last_value]. rewrite <- Hsec, Hn', He', Hn, He.
    split.
    + destruct (last_value (str "Name") _ lines); reflexivity.
    + destruct (last_value (str "Exec") _ lines); reflexivity.
Qed.

(** What the parser returns when it reads the lines to the end. *)
Lemma parse_lines_end (lines : list cstr) :
  type_rejected lines = false ->
  exists e,
    parse_lines lines = (e, valid e)
    /\ name e = field_of 255 (last_value (str "Name") false lines)
    /\ exec e = field_of 1023 (last_value (str "Exec") false lines)
    /\ (valid e = 1%Z
        <-> type_application_seen lines /\ name e <> [] /\ exec e <> [])
    /\ (valid e = 0%Z \/ valid e = 1%Z).
Proof.
  unfold type_rejected. intros Hrej.
  change false with (in_desktop_entry fresh) in Hrej at 1.
  rewrite parse_loop_rejected in Hrej.
  unfold parse_lines. fold fresh.
  destruct (parse_loop fresh lines) as [st|e0] eqn:Hloop; [|discriminate].
  destruct (parse_loop_end _ _ _ Hloop) as (_ & Hvalid & Htype).
  simpl in Hvalid, Htype.
  assert (Hseen : type_is_application st = true
                  <-> type_application_seen lines).
  { rewrite Htype. unfold type_application_seen.
    split; [intros [H|H]; [discriminate | assumption] | auto]. }
  assert (Hlen : forall s : cstr, (0 <? length s)%nat = true <-> s <> []).
  { intros [|c s]; cbn; split; intros H;
      first [discriminate | reflexivity | exfalso; apply H; reflexivity]. }
  assert (Hfields : name (ps_entry st)
                    = field_of 255 (last_value (str "Name") false lines)
                    /\ exec (ps_entry st)
                       = field_of 1023 (last_value (str "Exec") false lines)).
  { destruct (parse_loop_fields _ _ _ Hloop) as [Hn He].
    rewrite Hn, He. cbn [fresh in_desktop_entry].
    split; [destruct (last_value (str "Name") false lines)
           | destruct (last_value (str "Exec") false lines)]; reflexivity. }
  destruct Hfields as [Hname Hexec].
  unfold validate.
  destruct (type_is_application st && (0 <? length (name (ps_entry st)))%nat
            && (0 <? length (exec (ps_entry st)))%nat) eqn:Hcond.
  - apply andb_true_iff in Hcond as [[Ht Hn]%andb_true_iff He].
    apply Hseen in Ht. apply Hlen in Hn. apply Hlen in He.
    eexists. split; [reflexivity|]. simpl. repeat split; auto.
  - eexists. split; [reflexivity|]. rewrite Hvalid.
    repeat split; auto; try discriminate.
    intros (Ht & Hn & He). apply Hseen in Ht. apply Hlen in Hn.
    apply Hlen in He. rewrite Ht, Hn, He in Hcond. discriminate.
Qed.

Lemma parse_lines_file (data : list ascii) :
  lines_fit MAX_LINE data = true ->
  parse_lines (fgets_lines MAX_LINE data) = parse_lines (file_lines data).
Proof.
  intros Hfit. unfold parse_lines.
  rewrite (parse_file_lines _ _ _ Hfit). reflexivity.
Qed.

(** C5 (amended). In a file that can be opened and whose lines, up to a
    line that gives the key [Type] a value other than [Application] inside
    the section, fit the line buffer, [parse_desktop_file] returns 0 with
    an entry that is not valid and prints no error; every file that begins
    with the same lines gives the same result: no line after that line is
    processed. *)
Theorem type_gate_short_circuits (env : Env) (filename : cstr)
        (entry : DesktopEntry) (w : World) (data : list ascii)
        (pre : list (list ascii)) (line : list ascii)
        (post : list (list ascii)) (v : cstr) :
  fopen env filename = Some data ->
  fields newline data = pre ++ line :: post ->
  forallb (fits MAX_LINE) (pre ++ [line]) = true ->
  section_open (map cstring pre) = true ->
  key_value (cstring line) = Some (str "Type", v) ->
  v <> str "Application" ->
  exists e,
    parse_desktop_file env filename entry w = (e, 0%Z, w)
    /\ valid e = 0%Z
    /\ forall env' filename' data' post',
        fopen env' filename' = Some data' ->
        fields newline data' = pre ++ line :: post' ->
        parse_desktop_file env' filename' entry w = (e, 0%Z, w).
Proof.
  intros Hopen Hfields Hfit Hsec Hkv Hv.
  destruct (parse_loop_type_gate _ _ _ Hsec Hkv Hv) as (e & Hvalid & Hret).
  assert (Hfile : forall env' filename' data' post',
             fopen env' filename' = Some data' ->
             fields newline data' = pre ++ line :: post' ->
             parse_desktop_file env' filename' entry w = (e, 0%Z, w)).
  { intros env' filename' data' post' Hopen' Hfields'.
    unfold parse_desktop_file, parse_lines. rewrite Hopen'. fold fresh.
    destruct (parse_file_prefix MAX_LINE data' (pre ++ [line]) post' fresh)
      as (rest & ->); [rewrite <- app_assoc; exact Hfields' | exact Hfit|].
    rewrite map_app. cbn [map]. rewrite (Hret []). reflexivity. }
  exists e. split; [|split; assumption].
  apply (Hfile env filename data post); assumption.
Qed.

Lemma type_gate_short_circuits_witness :
  exists e,
    parse_desktop_file (one_file link_file) (str "site.desktop") zero_entry
                       (mkWorld [] 0)
    = (e, 0%Z, mkWorld [] 0)
    /\ valid e = 0%Z
    /\ forall env' filename' data' post',
        fopen env' filename' = Some data' ->
        fields newline data'
        = [str "[Desktop Entry]"; str "Name=Site";
           str "Exec=xdg-open http://example.org"]
          ++ str "Type=Link" :: post' ->
        parse_desktop_file env' filename' zero_entry (mkWorld [] 0)
        = (e, 0%Z, mkWorld [] 0).
Proof.
  apply (type_gate_short_circuits (one_file link_file) (str "site.desktop")
           zero_entry (mkWorld [] 0) (text link_file)
           [str "[Desktop Entry]"; str "Name=Site";
            str "Exec=xdg-open http://example.org"]
           (str "Type=Link")
           [str "Icon=web"; []]
           (str "Link")).
  - reflexivity.
  - vm_compute. reflexivity.
  - vm_compute. reflexivity.
  - vm_compute. reflexivity.
  - vm_compute. reflexivity.
  - discriminate.
Defined.

(** C5 as stated fails: the line [Type=Link] of this file, inside the
    section, comes behind so many blanks that [fgets] cuts it in two; the
    parser never reads it as a line and returns a valid entry. *)
Lemma padded_type_line_is_not_seen :
  (exists pre post,
      fields newline (file_of padded_link_file)
      = pre ++ (repeat " " 1021 ++ str "Type=Link") :: post
      /\ section_open (map cstring pre) = true
      /\ key_value (cstring (repeat " " 1021 ++ str "Type=Link"))
         = Some (str "Type", str "Link"))
  /\ parse_desktop_file (one_text (file_of padded_link_file))
                        (str "site.desktop") zero_entry (mkWorld [] 0)
     = (mkEntry (str "Site") (str "xdg-open http://example.org") [] [] []
                0 0 0 1, 1%Z, mkWorld [] 0).
Proof.
  split.
  - exists [str "[Desktop Entry]"; str "Type=Application"; str "Name=Site";
            str "Exec=xdg-open http://example.org"], [[]].
    vm_compute. repeat split; reflexivity.
  - vm_compute. reflexivity.
Qed.

(** C6 (amended).  When the parser reads a file to its end, no line having
    given [Type] another value inside the section, the entry holds as name
    and as command what the last Name line and the last Exec line read
    inside the section gave, cut to the field; it is valid exactly when a
    Type=Application line was read inside the section and that name and
    that command are not empty; and [valid], 0 or 1, is what is returned.
    This holds of the lines of a file when they fit the line buffer, and
    of the buffers [fgets] fills for every file.  A
    file that can be opened, whose lines fit and in which no section line
    contains the text [[Desktop Entry]] gives the empty entry, the value 0
    and no message, unlike a file that cannot be opened, which leaves the
    entry as it was and reports the error. *)
Theorem validity_postcondition :
  (forall (env : Env) (filename : cstr) (entry : DesktopEntry) (w : World)
          (data : list ascii),
      fopen env filename = Some data ->
      lines_fit MAX_LINE data = true ->
      type_rejected (file_lines data) = false ->
      exists e,
        parse_desktop_file env filename entry w = (e, valid e, w)
        /\ name e
           = field_of 255 (last_value (str "Name") false (file_lines data))
        /\ exec e
           = field_of 1023 (last_value (str "Exec") false (file_lines data))
        /\ (valid e = 1%Z
            <-> type_application_seen (file_lines data)
                /\ name e <> [] /\ exec e <> [])
        /\ (valid e = 0%Z \/ valid e = 1%Z))
  /\ (forall (env : Env) (filename : cstr) (entry : DesktopEntry)
             (w : World) (data : list ascii),
         fopen env filename = Some data ->
         type_rejected (fgets_lines MAX_LINE data) = false ->
         exists e,
           parse_desktop_file env filename entry w = (e, valid e, w)
           /\ name e
              = field_of 255 (last_value (str "Name") false
                                        (fgets_lines MAX_LINE data))
           /\ exec e
              = field_of 1023 (last_value (str "Exec") false
                                         (fgets_lines MAX_LINE data))
           /\ (valid e = 1%Z
               <-> type_application_seen (fgets_lines MAX_LINE data)
                   /\ name e <> [] /\ exec e <> [])
           /\ (valid e = 0%Z \/ valid e = 1%Z))
  /\ (forall (env : Env) (filename : cstr) (entry : DesktopEntry)
             (w : World) (data : list ascii),
         fopen env filename = Some data ->
         lines_fit MAX_LINE data = true ->
         forallb (fun l => negb (names_desktop_entry l)) (file_lines data)
         = true ->
         parse_desktop_file env filename entry w = (zero_entry, 0%Z, w))
  /\ (forall (env : Env) (filename : cstr) (entry : DesktopEntry)
             (w : World),
         fopen env filename = None ->
         parse_desktop_file env filename entry w
         = (entry, 0%Z, emit w (ErrOpen filename))).
Proof.
  split; [|split; [|split]].
  - intros env filename entry w data Hopen Hfit Hrej.
    destruct (parse_lines_end _ Hrej) as (e & Hparse & H).
    exists e. split; [|exact H].
    unfold parse_desktop_file.
    rewrite Hopen, (parse_lines_file _ Hfit), Hparse. reflexivity.
  - intros env filename entry w data Hopen Hrej.
    destruct (parse_lines_end _ Hrej) as (e & Hparse & H).
    exists e. split; [|exact H].
    unfold parse_desktop_file. rewrite Hopen, Hparse. reflexivity.
  - intros env filename entry w data Hopen Hfit Hall.
    unfold parse_desktop_file.
    rewrite Hopen, (parse_lines_file _ Hfit). unfold parse_lines.
    rewrite (parse_loop_closed _ (mkParseState zero_entry false false)
               eq_refl); [reflexivity|].
    apply List.Forall_forall. intros l Hl.
    rewrite List.forallb_forall in Hall. specialize (Hall l Hl).
    rewrite section_after_names. apply negb_true_iff, Hall.
  - intros env filename entry w Hopen.
    unfold parse_desktop_file. rewrite Hopen. reflexivity.
Qed.

Lemma validity_postcondition_witness :
  (exists e,
      parse_desktop_file (one_file editor_file) (str "editor.desktop")
                         zero_entry (mkWorld [] 0)
      = (e, valid e, mkWorld [] 0)
      /\ name e
         = field_of 255 (last_value (str "Name") false
                                   (file_lines (text editor_file)))
      /\ exec e
         = field_of 1023 (last_value (str "Exec") false
                                    (file_lines (text editor_file)))
      /\ (valid e = 1%Z
          <-> type_application_seen (file_lines (text editor_file))
              /\ name e <> [] /\ exec e <> [])
      /\ (valid e = 0%Z \/ valid e = 1%Z))
  /\ parse_desktop_file (one_file action_file) (str "editor.desktop")
                        zero_entry (mkWorld [] 0)
     = (zero_entry, 0%Z, mkWorld [] 0)
  /\ parse_desktop_file
       (mkEnv (fun _ => None) (fun _ => None) (fun _ => 0%Z) (fun _ => None))
       (str "gone.desktop") zero_entry (mkWorld [] 0)
     = (zero_entry, 0%Z, mkWorld [ErrOpen (str "gone.desktop")] 0).
Proof.
  pose proof validity_postcondition as (Hvalid & _ & Hclosed & Herror).
  split; [|split].
  - apply (Hvalid (one_file editor_file) (str "editor.desktop") zero_entry
                  (mkWorld [] 0) (text editor_file));
      vm_compute; reflexivity.
  - apply (Hclosed (one_file action_file) (str "editor.desktop") zero_entry
                   (mkWorld [] 0) (text action_file));
      vm_compute; reflexivity.
  - apply Herror. reflexivity.
Defined.

(** C6 as stated fails in its second sentence.  The first file has no
    section line at all, its text [[Desktop Entry]] being the end of a
    comment too long for the line buffer, and the second has one section,
    named otherwise; both parse as a valid application. *)
Lemma file_without_section_is_valid :
  (forallb (fun l => negb (is_section_line l))
           (file_lines (file_of commented_section_file)) = true
   /\ parse_desktop_file (one_text (file_of commented_section_file))
                         (str "stray.desktop") zero_entry (mkWorld [] 0)
      = (mkEntry (str "Stray") (str "stray --run") [] [] [] 0 0 0 1, 1%Z,
         mkWorld [] 0))
  /\ (forallb (fun l => negb (streq (trim l) (str "[Desktop Entry]")))
              (file_lines (text stray_file)) = true
      /\ parse_desktop_file (one_file stray_file) (str "stray.desktop")
                            zero_entry (mkWorld [] 0)
         = (mkEntry (str "Stray") (str "stray --run") [] [] [] 0 0 0 1, 1%Z,
            mkWorld [] 0)).
Proof. vm_compute. repeat split; reflexivity. Qed.

Lemma parse_lines_comment (before : list cstr) (line : cstr)
      (after : list cstr) :
  is_comment line = true ->
  parse_lines (before ++ line :: after) = parse_lines (before ++ after).
Proof.
  intros H. unfold parse_lines. rewrite !parse_loop_app. simpl.
  destruct (parse_loop _ before) as [st|e]; [|reflexivity].
  rewrite (desktop_line_comment _ _ H). reflexivity.
Qed.

(** X14. In an entry file whose lines fit the line buffer, a line that is
    empty once trimmed or starts with [#] is ignored: the file without
    that line parses to the same result. *)
Theorem entry_comments_are_ignored (env env' : Env) (filename filename' : cstr)
        (entry : DesktopEntry) (w : World) (data data' : list ascii)
        (before : list (list ascii)) (line : list ascii)
        (after : list (list ascii)) :
  fopen env filename = Some data ->
  fopen env' filename' = Some data' ->
  fields newline data = before ++ line :: after ->
  fields newline data' = before ++ after ->
  lines_fit MAX_LINE data = true ->
  is_comment (cstring line) = true ->
  parse_desktop_file env filename entry w
  = parse_desktop_file env' filename' entry w.
Proof.
  intros Hopen Hopen' Hfields Hfields' Hfit Hcom.
  assert (Hfit' : lines_fit MAX_LINE data' = true).
  { unfold lines_fit in *. rewrite Hfields in Hfit. rewrite Hfields'.
    rewrite forallb_app in *. cbn [forallb] in Hfit.
    apply andb_true_iff in Hfit as [-> [_ ->]%andb_true_iff]. reflexivity. }
  unfold parse_desktop_file.
  rewrite Hopen, Hopen', (parse_lines_file _ Hfit), (parse_lines_file _ Hfit').
  unfold file_lines. rewrite Hfields, Hfields', !map_app. cbn [map].
  rewrite (parse_lines_comment _ _ _ Hcom). reflexivity.
Qed.

Lemma entry_comments_are_ignored_witness :
  parse_desktop_file
    (one_text (text ["[Desktop Entry]"; "# Name=No"; "Type=Application";
                     "Name=a"; "Exec=b"]%string))
    (str "a.desktop") zero_entry (mkWorld [] 0)
  = parse_desktop_file
      (one_text (text ["[Desktop Entry]"; "Type=Application"; "Name=a";
                       "Exec=b"]%string))
      (str "a.desktop") zero_entry (mkWorld [] 0).
Proof.
  apply (entry_comments_are_ignored _ _ _ _ _ _
           (text ["[Desktop Entry]"; "# Name=No"; "Type=Application";
                  "Name=a"; "Exec=b"]%string)
           (text ["[Desktop Entry]"; "Type=Application"; "Name=a";
                  "Exec=b"]%string)
           [str "[Desktop Entry]"] (str "# Name=No")
           [str "Type=Application"; str "Name=a"; str "Exec=b"; []]);
    vm_compute; reflexivity.
Defined.

End EntryFile.

(** ** The policy loader on the lines of a file *)

Section PolicyFile.
Import Libc Util Config Autostart Props.

Lemma fields_all (d : ascii) (s : cstr) :
  Forall (Forall (fun c => c <> d)) (fields d s).
Proof.
  induction s as [|c s IH]; simpl; [repeat constructor|].
  destruct (Ascii.eqb_spec c d) as [->|Hc];
    [constructor; [constructor | exact IH]|].
  destruct (fields d s) as [|f fs]; [repeat constructor; assumption|].
  inversion IH as [|? ? Hf Hfs]; subst.
  constructor; [constructor; assumption | assumption].
Qed.

Lemma cstring_Forall (P : ascii -> Prop) (l : list ascii) :
  Forall P l -> Forall P (cstring l).
Proof.
  induction 1 as [|c l Hc Hl IH]; simpl; [constructor|].
  destruct (is_nul c); [constructor | constructor; assumption].
Qed.

Lemma trim_Forall (P : ascii -> Prop) (s : cstr) :
  Forall P s -> Forall P (trim s).
Proof.
  intros H. destruct (skip_space_split s) as (ws1 & _ & E1).
  unfold trim. destruct (skip_space s) as [|c r]; [constructor|].
  rewrite E1 in H. apply Forall_app in H as [_ H].
  inversion H as [|? ? Hc Hr]; subst.
  destruct (rstrip_split r) as (ws2 & _ & E2).
  rewrite E2 in Hr. apply Forall_app in Hr as [Hr _].
  constructor; assumption.
Qed.

Lemma span_stop (ok : ascii -> bool) (a : cstr) (c : ascii) (b : cstr) :
  Forall (fun x => ok x = true) a -> ok c = false ->
  span ok (a ++ c :: b) = (a, c :: b).
Proof.
  intros Ha Hc. induction Ha as [|x a Hx Ha IH]; simpl.
  - rewrite Hc. reflexivity.
  - rewrite Hx, IH. reflexivity.
Qed.

Lemma span_all (ok : ascii -> bool) (a : cstr) :
  Forall (fun x => ok x = true) a -> span ok a = (a, []).
Proof.
  induction 1 as [|x a Hx Ha IH]; simpl; [reflexivity|].
  rewrite Hx, IH. reflexivity.
Qed.

(** What [sscanf] makes of a key, an [=] and a value that fit. *)
Lemma scan_key_val_fits (key value : cstr) :
  Forall (fun c => c <> "=") key -> key <> [] -> length key <= 255 ->
  Forall (fun c => c <> newline) value -> value <> [] ->
  length value <= 255 ->
  scan_key_val (key ++ "=" :: value) = Some (key, value).
Proof.
  intros Hk Hk0 Hklen Hv Hv0 Hvlen. unfold scan_key_val, scanset.
  rewrite span_stop; [|eapply Forall_impl; [exact Hk|] | reflexivity].
  2:{ intros c Hc. apply negb_true_iff, Ascii.eqb_neq, Hc. }
  rewrite take_ge by lia.
  destruct key as [|k0 key]; [contradiction|].
  rewrite drop_app_length.
  rewrite span_all.
  2:{ eapply Forall_impl; [exact Hv|].
      intros c Hc. apply negb_true_iff, Ascii.eqb_neq, Hc. }
  rewrite take_ge by lia.
  destruct value as [|v0 value]; [contradiction|]. reflexivity.
Qed.

(** A rule once stored stays in its slot. *)
Lemma config_line_keeps_slot (st : LoadState) (line : cstr) (i : nat) :
  within_caps (ls_cfg st) ->
  i < Z.to_nat (app_count (ls_cfg st)) ->
  apps (ls_cfg (config_line st line)) !! i = apps (ls_cfg st) !! i
  /\ i < Z.to_nat (app_count (ls_cfg (config_line st line))).
Proof.
  intros (Hc & _) Hi.
  destruct (config_line_apps st line) as [[Ea Ec]|(Hlt & [x Ea] & Ec)];
    rewrite Ea, Ec.
  - auto.
  - rewrite list_lookup_insert_ne by lia. split; [reflexivity | lia].
Qed.

Lemma fold_config_line_keeps_slot (lines : list cstr) (i : nat) :
  forall st,
    within_caps (ls_cfg st) ->
    i < Z.to_nat (app_count (ls_cfg st)) ->
    apps (ls_cfg (fold_left config_line lines st)) !! i
    = apps (ls_cfg st) !! i.
Proof.
  induction lines as [|l lines IH]; intros st Hcaps Hi; simpl; [reflexivity|].
  destruct (config_line_keeps_slot st l i Hcaps Hi) as [E Hi'].
  rewrite IH; [exact E | apply config_line_within_caps, Hcaps | exact Hi'].
Qed.

(** The rule a key=value line stores in the section [apps]. *)
Lemma config_line_stores (st : LoadState) (line key value : cstr) :
  ls_section st = str "apps" ->
  (app_count (ls_cfg st) < MAX_CFG_APPS)%Z ->
  is_comment line = false ->
  is_section_line line = false ->
  scan_key_val (trim line) = Some (key, value) ->
  config_line st line
  = mkLoadState (push_app (ls_cfg st) (app_rule_of (trim key) (trim value)))
                (ls_section st).
Proof.
  intros Hsec Hroom Hcom Hhead Hkv.
  unfold config_line, is_comment, is_section_line in *.
  destruct (trim line) as [|c s]; [discriminate|].
  rewrite Hcom, Hhead, Hkv, Hsec.
  change (streq (str "apps") (str "general")) with false.
  rewrite streq_refl.
  apply Z.ltb_lt in Hroom. rewrite Hroom. reflexivity.
Qed.

(** The scan queues an entry that passes the other gates exactly when the
    rules do not give its name the number 0. *)
Lemma scan_entry_gate (env : Env) (cfg : Config) (dir : cstr)
      (st : ScanState) (d_name : cstr) (de : DesktopEntry) (r : Z)
      (w' : World) :
  strrchr d_name "." = Some (str ".desktop") ->
  parse_desktop_file env (take (MAX_PATH - 1) (dir ++ str "/" ++ d_name))
                     zero_entry (sc_world st) = (de, r, w') ->
  r <> 0%Z -> valid de <> 0%Z -> hidden de = 0%Z -> nodisplay de = 0%Z ->
  check_tryexec env (tryexec de) <> 0%Z ->
  q_apps (sc_queue (scan_entry env cfg dir st d_name))
  = (if (allow_of cfg (name de) =? 0)%Z then q_apps (sc_queue st)
     else q_apps (sc_queue st) ++ [de])
  /\ out (sc_world (scan_entry env cfg dir st d_name))
     = out w' ++ [if (allow_of cfg (name de) =? 0)%Z
                  then SkippedPolicy (name de) else Queued (name de)].
Proof.
  intros Hext Hparse Hr Hvalid Hhidden Hnodisplay Htry.
  unfold scan_entry. rewrite Hext, streq_refl. cbn [negb].
  rewrite Hparse.
  rewrite (proj2 (Z.eqb_neq _ _) Hr), (proj2 (Z.eqb_neq _ _) Hvalid),
    (proj2 (Z.eqb_neq _ _) Htry).
  rewrite Hhidden, Hnodisplay. cbn [Z.eqb negb orb].
  unfold allow_of, allowed, config_find_app. rewrite allowed_from_find.
  destruct (_ =? 0)%Z; split; reflexivity.
Qed.

(** C3 (amended). A sub-token that starts with [allow:] sets the rule's
    [allow] to [atoi] of what follows.  For a key=value line of the section
    [apps], below the ceiling, in a file whose lines up to this one fit the
    line buffer, and with a key and a value of at most 255 characters each,
    the rule stored has the number of the line's last [allow:] sub-token,
    and 1 without one.  The number is what counts: [allow:true] reads as 0
    and [allow:2] as 2; and an entry that passes the other gates of the scan
    is queued exactly when the first rule with its name, if there is one,
    does not have the number 0.  So under the policy [firefox=allow:0] no
    scan queues an entry named [firefox]. *)
Theorem allow_token_is_numeric :
  (forall (r : AppRule) (token : cstr),
      has_prefix (str "allow:") (trim token) = true ->
      apply_token r token
      = mkAppRule (app_name r) (atoi (drop 6 (trim token)))
                  (app_delay_ms r))
  /\ (forall (cfg : Config) (data : list ascii) (pre : list (list ascii))
             (line : list ascii) (post : list (list ascii))
             (key value : cstr),
         within_caps cfg ->
         fields newline data = pre ++ line :: post ->
         forallb (fits Config.MAX_LINE) (pre ++ [line]) = true ->
         ls_section (load_lines cfg (map cstring pre)) = str "apps" ->
         (app_count (ls_cfg (load_lines cfg (map cstring pre)))
          < MAX_CFG_APPS)%Z ->
         is_comment (cstring line) = false ->
         is_section_line (cstring line) = false ->
         trim (cstring line) = key ++ "=" :: value ->
         Forall (fun c => c <> "=") key ->
         key <> [] -> length key <= 255 ->
         value <> [] -> length value <= 255 ->
         exists r,
           apps (fst (config_load cfg (Some data)))
             !! Z.to_nat (app_count (ls_cfg (load_lines cfg (map cstring pre))))
           = Some r
           /\ app_name r = trim key
           /\ app_allow r
              = match last (List.filter is_allow_token
                                        (strtok (trim value) ",")) with
                | Some t => atoi (drop 6 (trim t))
                | None => 1%Z
                end)
  /\ config_find_app
       (fst (config_load config_init
               (Some (text ["[apps]"; "firefox=allow:true"]%string))))
       (str "firefox")
     = Some (mkAppRule (str "firefox") 0 (-1))
  /\ config_find_app firefox_two (str "firefox")
     = Some (mkAppRule (str "firefox") 2 (-1))
  /\ (forall (env : Env) (cfg : Config) (dir : cstr) (st : ScanState)
             (d_name : cstr) (de : DesktopEntry) (r : Z) (w' : World),
         strrchr d_name "." = Some (str ".desktop") ->
         parse_desktop_file env
                            (take (MAX_PATH - 1) (dir ++ str "/" ++ d_name))
                            zero_entry (sc_world st) = (de, r, w') ->
         r <> 0%Z -> valid de <> 0%Z ->
         hidden de = 0%Z -> nodisplay de = 0%Z ->
         check_tryexec env (tryexec de) <> 0%Z ->
         q_apps (sc_queue (scan_entry env cfg dir st d_name))
         = (if (allow_of cfg (name de) =? 0)%Z then q_apps (sc_queue st)
            else q_apps (sc_queue st) ++ [de])
         /\ out (sc_world (scan_entry env cfg dir st d_name))
            = out w' ++ [if (allow_of cfg (name de) =? 0)%Z
                         then SkippedPolicy (name de)
                         else Queued (name de)])
  /\ config_find_app firefox_denied (str "firefox")
     = Some (mkAppRule (str "firefox") 0 (-1))
  /\ (forall (env : Env) (dir : cstr) (idx : Z) (q : AppQueue) (w : World),
         exists added,
           q_apps (snd (fst (scan_autostart_dir env firefox_denied dir idx
                                                q w)))
           = q_apps q ++ added
           /\ Forall (fun e => name e <> str "firefox") added).
Proof.
  split; [exact apply_token_allow|].
  split; [|split; [reflexivity|]; split; [reflexivity|];
           split; [exact scan_entry_gate|]; split; [reflexivity|]].
  - intros cfg data pre line post key value Hcaps Hfields Hfit Hsec Hroom
           Hcom Hhead Htrim Hkey Hk0 Hklen Hv0 Hvlen.
    set (st := load_lines cfg (map cstring pre)) in *.
    assert (Hst : within_caps (ls_cfg st))
      by (apply fold_config_line_within_caps, Hcaps).
    assert (Hnl : Forall (fun c => c <> newline) value).
    { pose proof (fields_all newline data) as Hall.
      rewrite Hfields in Hall. apply Forall_app in Hall as [_ Hall].
      inversion Hall as [|? ? Hline _]; subst.
      apply (cstring_Forall _ _), (trim_Forall _ _) in Hline.
      rewrite Htrim in Hline. apply Forall_app in Hline as [_ Hline].
      inversion Hline; assumption. }
    assert (Hkv : scan_key_val (trim (cstring line)) = Some (key, value))
      by (rewrite Htrim; apply scan_key_val_fits; assumption).
    cbn [config_load fst]. unfold load_lines at 1.
    destruct (load_file_prefix Config.MAX_LINE data (pre ++ [line]) post
                (mkLoadState cfg []))
      as (rest & ->); [rewrite <- app_assoc; exact Hfields | exact Hfit|].
    rewrite map_app, fold_left_app. cbn [map fold_left].
    fold (load_lines cfg (map cstring pre)). fold st.
    rewrite (config_line_stores st _ _ _ Hsec Hroom Hcom Hhead Hkv).
    destruct Hst as (Hc & Hd & Hla & Hld).
    rewrite fold_config_line_keeps_slot.
    + cbn [ls_cfg apps push_app].
      rewrite list_lookup_insert_eq by (unfold MAX_CFG_APPS in *; lia).
      eexists. split; [reflexivity|]. split.
      * rewrite app_rule_of_name. apply take_ge.
        pose proof (trim_length key). lia.
      * apply fold_apply_token_allow.
    + cbn [ls_cfg]. repeat split; cbn [app_count dir_count apps dirs push_app];
        rewrite ?length_insert; lia.
    + cbn [ls_cfg app_count push_app]. lia.
  - intros env dir idx q w.
    destruct (scan_autostart_dir_queue env firefox_denied dir idx q w)
      as (added & E & F).
    exists added. split; [assumption|].
    eapply Forall_impl; [exact F|].
    intros e (_ & _ & _ & H & _) Hname. apply H. rewrite Hname.
    vm_compute. reflexivity.
Qed.

Lemma allow_token_is_numeric_witness :
  (exists r,
      apps (fst (config_load config_init
                   (Some (text ["[apps]"; "firefox = allow:0"]%string))))
        !! Z.to_nat (app_count (ls_cfg (load_lines config_init
                                          (map cstring [str "[apps]"]))))
      = Some r
      /\ app_name r = trim (str "firefox ")
      /\ app_allow r
         = match last (List.filter is_allow_token
                                   (strtok (trim (str " allow:0")) ",")) with
           | Some t => atoi (drop 6 (trim t))
           | None => 1%Z
           end)
  /\ q_apps (sc_queue (scan_entry (one_file firefox_file) firefox_two
                                  (str "/etc/xdg/autostart")
                                  (mkScan app_queue_init (mkWorld [] 0) 0 0)
                                  (str "firefox.desktop")))
     = (if (allow_of firefox_two (str "firefox") =? 0)%Z then []
        else [] ++ [entry_of "firefox" "firefox %u"])
  /\ q_apps (sc_queue (scan_entry (one_file firefox_file) firefox_denied
                                  (str "/etc/xdg/autostart")
                                  (mkScan app_queue_init (mkWorld [] 0) 0 0)
                                  (str "firefox.desktop")))
     = (if (allow_of firefox_denied (str "firefox") =? 0)%Z then []
        else [] ++ [entry_of "firefox" "firefox %u"]).
Proof.
  pose proof allow_token_is_numeric as (_ & Hline & _ & _ & Hscan & _).
  split; [|split].
  - apply (Hline config_init
                 (text ["[apps]"; "firefox = allow:0"]%string)
                 [str "[apps]"] (str "firefox = allow:0") [[]]
                 (str "firefox ") (str " allow:0"));
      try (vm_compute; reflexivity); try discriminate; try (simpl; lia).
    + repeat split; vm_compute; (reflexivity || discriminate).
    + repeat constructor; discriminate.
  - apply (Hscan (one_file firefox_file) firefox_two
                 (str "/etc/xdg/autostart")
                 (mkScan app_queue_init (mkWorld [] 0) 0 0)
                 (str "firefox.desktop")
                 (entry_of "firefox" "firefox %u") 1%Z (mkWorld [] 0));
      try (vm_compute; reflexivity); discriminate.
  - apply (Hscan (one_file firefox_file) firefox_denied
                 (str "/etc/xdg/autostart")
                 (mkScan app_queue_init (mkWorld [] 0) 0 0)
                 (str "firefox.desktop")
                 (entry_of "firefox" "firefox %u") 1%Z (mkWorld [] 0));
      try (vm_compute; reflexivity); discriminate.
Defined.

(** C3 as stated fails: the value of this [apps] line has the sub-token
    [allow:0], but [sscanf] takes the first 255 characters of the value
    only, and the rule stored for [firefox] has [allow = 1]. *)
Lemma long_value_loses_allow_token :
  last (strtok long_value ",") = Some (str "allow:0")
  /\ config_find_app
       (fst (config_load config_init (Some (file_of long_value_policy))))
       (str "firefox")
     = Some (mkAppRule (str "firefox") 1 100)
  /\ allowed (fst (config_load config_init
                     (Some (file_of long_value_policy))))
             (str "firefox") = 1%Z.
Proof. vm_compute. repeat split; reflexivity. Qed.

(** C8 (amended). Loading a policy file into a fresh configuration returns
    0 and leaves [app_count] and [dir_count] within [MAX_CFG_APPS] and
    [MAX_CFG_DIRS]; once a counter has reached its ceiling no line changes
    the rules of that kind; and what [config_find_app] finds for a name
    when the ceiling is reached is what it finds after the whole file:
    nothing for a name without a rule by then, and the rule stored before
    for a name that a dropped line repeats. *)
Theorem rule_capacity_is_bounded :
  (forall data : list ascii,
      let r := config_load config_init (Some data) in
      snd r = 0%Z
      /\ (0 <= app_count (fst r) <= MAX_CFG_APPS)%Z
      /\ (0 <= dir_count (fst r) <= MAX_CFG_DIRS)%Z)
  /\ (forall (st : LoadState) (line : cstr),
         app_count (ls_cfg st) = MAX_CFG_APPS ->
         apps (ls_cfg (config_line st line)) = apps (ls_cfg st)
         /\ app_count (ls_cfg (config_line st line)) = MAX_CFG_APPS)
  /\ (forall (st : LoadState) (line : cstr),
         dir_count (ls_cfg st) = MAX_CFG_DIRS ->
         dirs (ls_cfg (config_line st line)) = dirs (ls_cfg st)
         /\ dir_count (ls_cfg (config_line st line)) = MAX_CFG_DIRS)
  /\ (forall (cfg : Config) (pre post : list cstr) (nm : cstr),
         app_count (ls_cfg (load_lines cfg pre)) = MAX_CFG_APPS ->
         config_find_app (ls_cfg (load_lines cfg (pre ++ post))) nm
         = config_find_app (ls_cfg (load_lines cfg pre)) nm)
  /\ (forall (cfg : Config) (data : list ascii) (pre post : list cstr)
             (nm : cstr),
         fgets_lines Config.MAX_LINE data = pre ++ post ->
         app_count (ls_cfg (load_lines cfg pre)) = MAX_CFG_APPS ->
         config_find_app (fst (config_load cfg (Some data))) nm
         = config_find_app (ls_cfg (load_lines cfg pre)) nm).
Proof.
  assert (Hfrozen : forall (cfg : Config) (pre post : list cstr) (nm : cstr),
             app_count (ls_cfg (load_lines cfg pre)) = MAX_CFG_APPS ->
             config_find_app (ls_cfg (load_lines cfg (pre ++ post))) nm
             = config_find_app (ls_cfg (load_lines cfg pre)) nm).
  { intros cfg pre post nm Hfull.
    unfold load_lines in *. rewrite fold_left_app.
    destruct (fold_config_line_full post _ Hfull) as [Ea Ec].
    apply config_find_app_ext; congruence. }
  split; [|split; [|split; [|split]]].
  - intros data. simpl. split; [reflexivity|].
    destruct (fold_config_line_within_caps (fgets_lines Config.MAX_LINE data)
                (mkLoadState config_init []) config_init_within_caps)
      as (Ha & Hd & _).
    split; assumption.
  - intros st line H.
    destruct (config_line_apps st line) as [[Ea Ec]|(Hlt & _)]; [|lia].
    split; congruence.
  - intros st line H.
    destruct (config_line_dirs st line) as [[Ea Ec]|(Hlt & _)]; [|lia].
    split; congruence.
  - exact Hfrozen.
  - intros cfg data pre post nm Hlines Hfull.
    cbn [config_load fst]. rewrite Hlines. apply Hfrozen, Hfull.
Qed.

Lemma rule_capacity_is_bounded_witness :
  config_find_app
    (fst (config_load config_init
            (Some (file_of (crowded_policy ++ [str "late=allow:0"])))))
    (str "late")
  = config_find_app (ls_cfg (load_lines config_init
                               (map (fun l => l ++ [newline]) crowded_policy)))
                    (str "late")
  /\ app_count
       (ls_cfg (config_line (load_lines config_init crowded_policy)
                            (str "late=allow:0"))) = MAX_CFG_APPS
  /\ dir_count
       (ls_cfg (config_line (load_lines config_init crowded_dirs)
                            (str "/late=block"))) = MAX_CFG_DIRS.
Proof.
  pose proof rule_capacity_is_bounded as (_ & Hline & Hdir & _ & Hfind).
  split; [|split].
  - apply (Hfind config_init
                 (file_of (crowded_policy ++ [str "late=allow:0"]))
                 (map (fun l => l ++ [newline]) crowded_policy)
                 [str "late=allow:0" ++ [newline]] (str "late"));
      vm_compute; reflexivity.
  - apply (Hline (load_lines config_init crowded_policy) (str "late=allow:0")).
    vm_compute; reflexivity.
  - apply (Hdir (load_lines config_init crowded_dirs) (str "/late=block")).
    vm_compute; reflexivity.
Defined.

(** C8 as stated fails in its last part: the 129th rule of this file,
    [a=allow:0], is dropped (the file loads to what it loads to without
    that line), and [config_find_app] for its name [a] returns a rule, the
    first of the file. *)
Lemma dropped_rule_name_is_found :
  config_load config_init
              (Some (file_of (crowded_policy ++ [str "a=allow:0"])))
  = config_load config_init (Some (file_of crowded_policy))
  /\ app_count (fst (config_load config_init (Some (file_of crowded_policy))))
     = MAX_CFG_APPS
  /\ config_find_app
       (fst (config_load config_init
               (Some (file_of (crowded_policy ++ [str "a=allow:0"])))))
       (str "a")
     = Some (mkAppRule (str "a") 1 (-1)).
Proof. vm_compute. repeat split; reflexivity. Qed.

Lemma load_lines_file (cfg : Config) (data : list ascii) :
  lines_fit Config.MAX_LINE data = true ->
  load_lines cfg (fgets_lines Config.MAX_LINE data)
  = load_lines cfg (file_lines data).
Proof. intros Hfit. apply load_file_lines, Hfit. Qed.

Lemma load_lines_comment (cfg : Config) (before : list cstr) (line : cstr)
      (after : list cstr) :
  is_comment line = true ->
  load_lines cfg (before ++ line :: after) = load_lines cfg (before ++ after).
Proof.
  intros H. unfold load_lines. rewrite !fold_left_app. simpl.
  rewrite (config_line_comment _ _ H). reflexivity.
Qed.

(** X11. In a policy file whose lines fit the line buffer, a line that is
    empty once trimmed or starts with [#] is ignored: the file without
    that line loads to the same configuration. *)
Theorem policy_comments_are_ignored (cfg : Config) (data data' : list ascii)
        (before : list (list ascii)) (line : list ascii)
        (after : list (list ascii)) :
  fields newline data = before ++ line :: after ->
  fields newline data' = before ++ after ->
  lines_fit Config.MAX_LINE data = true ->
  is_comment (cstring line) = true ->
  config_load cfg (Some data) = config_load cfg (Some data').
Proof.
  intros Hfields Hfields' Hfit Hcom.
  assert (Hfit' : lines_fit Config.MAX_LINE data' = true).
  { unfold lines_fit in *. rewrite Hfields in Hfit. rewrite Hfields'.
    rewrite forallb_app in *. cbn [forallb] in Hfit.
    apply andb_true_iff in Hfit as [-> [_ ->]%andb_true_iff]. reflexivity. }
  cbn [config_load].
  rewrite (load_lines_file _ _ Hfit), (load_lines_file _ _ Hfit').
  unfold file_lines. rewrite Hfields, Hfields', !map_app. cbn [map].
  rewrite (load_lines_comment _ _ _ _ Hcom). reflexivity.
Qed.

Lemma policy_comments_are_ignored_witness :
  config_load config_init
              (Some (text ["[general]"; "  # slower"; "delay=300"]%string))
  = config_load config_init (Some (text ["[general]"; "delay=300"]%string)).
Proof.
  apply (policy_comments_are_ignored config_init _ _
           [str "[general]"] (str "  # slower") [str "delay=300"; []]);
    vm_compute; reflexivity.
Defined.

Lemma load_lines_outside_general (cfg : Config) (lines : list cstr) :
  Forall (fun l => opens_general l = false) lines ->
  startup_delay_ms (ls_cfg (load_lines cfg lines)) = startup_delay_ms cfg
  /\ delay_ms (ls_cfg (load_lines cfg lines)) = delay_ms cfg.
Proof.
  intros Hall. unfold load_lines.
  assert (H : forall st,
             ls_section st <> str "general" ->
             startup_delay_ms (ls_cfg (fold_left config_line lines st))
             = startup_delay_ms (ls_cfg st)
             /\ delay_ms (ls_cfg (fold_left config_line lines st))
                = delay_ms (ls_cfg st)).
  { induction Hall as [|l lines Hl Hall IH]; intros st Hst; simpl; [auto|].
    destruct (config_line_outside_general st l Hst Hl) as (Hs & E1 & E2).
    destruct (IH _ Hs) as [E3 E4]. split; congruence. }
  apply (H (mkLoadState cfg [])). discriminate.
Qed.

(** X12. The global delays are set in the section [general] only: a policy
    file whose lines fit the line buffer and in which no section line opens
    [general] leaves [startup_delay_ms] and [delay_ms] as they were (0 and
    200 after [config_init]), whatever its other lines say. *)
Theorem delays_are_set_in_general_only (cfg : Config) (data : list ascii) :
  lines_fit Config.MAX_LINE data = true ->
  forallb (fun l => negb (opens_general l)) (file_lines data) = true ->
  startup_delay_ms (fst (config_load cfg (Some data))) = startup_delay_ms cfg
  /\ delay_ms (fst (config_load cfg (Some data))) = delay_ms cfg.
Proof.
  intros Hfit Hall. cbn [config_load fst].
  rewrite (load_lines_file _ _ Hfit).
  apply load_lines_outside_general.
  apply List.Forall_forall. intros l Hl.
  rewrite List.forallb_forall in Hall.
  apply negb_true_iff, Hall, Hl.
Qed.

Lemma delays_are_set_in_general_only_witness :
  startup_delay_ms
    (fst (config_load config_init
            (Some (text ["[apps]"; "delay=allow:0,delay:900"; "[generals]";
                         "delay=7"]%string)))) = startup_delay_ms config_init
  /\ delay_ms
       (fst (config_load config_init
               (Some (text ["[apps]"; "delay=allow:0,delay:900"; "[generals]";
                            "delay=7"]%string)))) = delay_ms config_init.
Proof.
  apply (delays_are_set_in_general_only config_init); vm_compute; reflexivity.
Defined.

End PolicyFile.
